(** * GitHub engines of metasearch: a shallow embedding

    The development covers the three GitHub connectors of the repository:

    - [VUser]: [src/engines/github-users.ts], id "github_users"
      ([getRepos], [search]);
    - [VOrg]:  the organisation engine, id "github" ([getRepos], [search]);
    - [VGist]: the users engine that also lists gists
      ([getReposAndGists], [search]).

    The three files share their text almost line by line; one definition
    per source function takes the variant as an argument and branches
    exactly where the sources differ.

    JavaScript strings are sequences of code units; they are modelled by
    [string], one character per unit.  Promises are modelled by their
    settled outcome, the network by the queues of answers it will give. *)

From Stdlib Require Import ZArith Ascii Sorted.
From Stdlib Require String.
From stdpp Require Import gmap strings list fin_maps.

Open Scope Z_scope.
Open Scope nat_scope.

(** ** Strings *)

Module Str.

Definition dq : string := String (ascii_of_nat 34) EmptyString.

Definition between (lo hi : nat) (c : ascii) : bool :=
  (lo <=? nat_of_ascii c) && (nat_of_ascii c <=? hi).

(** [\w] of a regular expression without the [u] flag: [[A-Za-z0-9_]]. *)
Definition is_word (c : ascii) : bool :=
  between 65 90 c || between 97 122 c || between 48 57 c
  || (nat_of_ascii c =? 95).

(** The class [[a-z-]]. *)
Definition is_lower_hyphen (c : ascii) : bool :=
  between 97 122 c || (nat_of_ascii c =? 45).

Definition is_space (c : ascii) : bool := nat_of_ascii c =? 32.
Definition is_colon (c : ascii) : bool := nat_of_ascii c =? 58.
Definition is_slash (c : ascii) : bool := nat_of_ascii c =? 47.

(** [strip_prefix p s] is [Some rest] when [s = p +:+ rest]. *)
Fixpoint strip_prefix (p s : string) : option string :=
  match p, s with
  | EmptyString, _ => Some s
  | String a p', String b s' =>
      if Ascii.eqb a b then strip_prefix p' s' else None
  | String _ _, EmptyString => None
  end.

(** Truthiness of a string value: the empty string is falsy. *)
Definition truthy (s : string) : bool := negb (String.eqb s EmptyString).

(** Truthiness of a value that is a string, [null] or [undefined]. *)
Definition truthy_opt (s : option string) : bool :=
  match s with Some t => truthy t | None => false end.

(** [a > b] on strings: lexicographic on code units. *)
Definition gtb (a b : string) : bool :=
  match String.compare a b with Gt => true | _ => false end.

End Str.

(** ** Objects and [Set]

    A JavaScript [Set] of objects compares its members by identity
    (SameValueZero on references), not by their fields, and iterates in
    insertion order.  An object is modelled by its identity together with
    its fields; a set by the list of its members in insertion order. *)

Record Obj (A : Type) := mkObj { oid : nat; oval : A }.
Arguments mkObj {A} _ _.
Arguments oid {A} _.
Arguments oval {A} _.

Module JsSet.

Definition t (A : Type) := list (Obj A).

Definition empty {A} : t A := [].

Definition has {A} (s : t A) (o : Obj A) : bool :=
  existsb (fun x => oid x =? oid o) s.

(** [s.add(o)] *)
Definition add {A} (s : t A) (o : Obj A) : t A :=
  if has s o then s else s ++ [o].

(** [xs.forEach((o) => s.add(o))] *)
Definition add_all {A} (s : t A) (xs : list (Obj A)) : t A :=
  fold_left add xs s.

(** [s.size] *)
Definition size {A} (s : t A) : nat := length s.

(** [Array.from(s)] *)
Definition to_array {A} (s : t A) : list (Obj A) := s.

End JsSet.

(** ** Data of the engines *)

Record Repo := mkRepo {
  description : option string;   (* null | string *)
  isArchived : bool;
  isFork : bool;
  name : string
}.

Record Gist := mkGist {
  g_description : option string;
  g_id : string;
  g_updated_at : string;
  g_html_url : string
}.

(** An item of the answer of [GET /search/issues]. *)
Record Hit := mkHit {
  h_body : option string;
  h_html_url : string;
  h_number : Z;
  h_pull_request : bool;          (* the optional field is present *)
  h_title : string;
  h_updated_at : string;
  h_user_login : string
}.

Record Result := mkResult {
  modified : option Z;
  snippet : option string;
  title : string;
  url : string
}.

Inductive Variant := VUser | VOrg | VGist.

(** ** Upstream answers *)

(** A property of a parsed JSON object: absent ([undefined] when read),
    [null], or a value.  Destructuring defaults apply to [Absent] only. *)
Inductive Field (A : Type) := Absent | Null | Present (a : A).
Arguments Absent {A}.
Arguments Null {A}.
Arguments Present {A} _.

Record PageInfo := mkPageInfo {
  endCursor : option string;
  hasNextPage : bool
}.

(** [repositories]: the [node]s of [edges], and [pageInfo]. *)
Record Connection := mkConnection {
  edges : Field (list (Obj Repo));
  pageInfo : Field PageInfo
}.

(** [response.data], down to [data.user] or [data.organization]; [None]
    stands for a falsy value at that level. *)
Record Owner := mkOwner { repositories : option Connection }.
Record GqlData := mkGqlData { owner : option Owner }.
Record GqlBody := mkGqlBody { data : option GqlData }.
Record GqlResponse := mkGqlResponse { r_data : option GqlBody }.

Inductive JsError :=
| NotInitialized                 (* Error("Engine not initialized") *)
| TypeError                      (* property read on undefined or null *)
| HttpError (reason : string).   (* rejection of an axios call *)

Inductive Outcome (A : Type) := Resolved (a : A) | Rejected (reason : string).
Arguments Resolved {A} _.
Arguments Rejected {A} _.

(** The body of a fulfilled REST answer: of the shape the code reads, or
    of another shape (no array for [GET /users/:user/gists], no [items]
    array for [GET /search/issues]), on which the code inside the [try]
    raises a TypeError.  The text of that error is the runtime's; [error]
    is the error as the template [${error}] prints it. *)
Inductive Body (A : Type) := Wellformed (a : A) | Malformed (error : string).
Arguments Wellformed {A} _.
Arguments Malformed {A} _.

(** The answers the network will give, per endpoint, in the order of the
    calls.  The nodes, gists and hits that arrive are objects of the types
    the sources declare for them ([Repo], [Gist], the items of the issue
    search). *)
Record World := mkWorld {
  graphqlQ : list (Outcome GqlResponse);
  gistsQ : list (Outcome (Body (list (Obj Gist))));
  issuesQ : list (Outcome (Body (list Hit)))
}.

Inductive OwnerKind := KUser | KOrganization.

(** The GraphQL query of one page request. *)
Record GqlQuery := mkGqlQuery {
  q_kind : OwnerKind;
  q_login : string;
  q_first : nat;
  q_after : option string
}.

Inductive Event :=
| Post (path : string) (query : GqlQuery)
| Get (path : string) (params : list (string * string))
| Warn (msg : string)
| Error (msg : string).

(** The state of an asynchronous computation when the answers run out:
    fulfilled, rejected, or still awaiting an answer. *)
Inductive Res (A : Type) := Ok (a : A) | Throw (e : JsError) | Pending.
Arguments Ok {A} _.
Arguments Throw {A} _.
Arguments Pending {A}.

(** ** The paginated walk ([getRepos], [getReposAndGists]) *)

Definition owner_kind (v : Variant) : OwnerKind :=
  match v with VOrg => KOrganization | _ => KUser end.

(** The query of a page request, as the template builds it from [user]
    and [cursor]: the [after] argument is written only for a truthy
    [cursor]. *)
Definition graphqlQuery (v : Variant) (login : string) (cursor : option string)
  : GqlQuery :=
  {| q_kind := owner_kind v;
     q_login := login;
     q_first := 100;
     q_after := if Str.truthy_opt cursor then cursor else None |}.

Definition warn_not_found (v : Variant) (login : string) : Event :=
  match v with
  | VOrg =>
      Warn ("Organization " +:+ Str.dq +:+ login +:+ Str.dq
            +:+ " not found or no access.")
  | _ =>
      Warn ("User " +:+ Str.dq +:+ login +:+ Str.dq
            +:+ " not found, has no repositories, or access is restricted.")
  end.

Inductive PageStep :=
| Stop (repos : JsSet.t Repo) (log : list Event)
| Next (repos : JsSet.t Repo) (cursor : option string)
| Raise (e : JsError).

(** [edges] after destructuring: the users engines default an absent
    property to [[]], the organisation engine has no default; [map] on
    [undefined] or [null] is a TypeError. *)
Definition edges_of (v : Variant) (c : Connection) : option (list (Obj Repo)) :=
  match edges c, v with
  | Present es, _ => Some es
  | Absent, (VUser | VGist) => Some []
  | Absent, VOrg => None
  | Null, _ => None
  end.

Definition pageInfo_of (v : Variant) (c : Connection) : option PageInfo :=
  match pageInfo c, v with
  | Present p, _ => Some p
  | Absent, (VUser | VGist) => Some {| endCursor := None; hasNextPage := false |}
  | Absent, VOrg => None
  | Null, _ => None
  end.

(** The rest of the connection once it is at hand: add the nodes, then
    look at [pageInfo]. *)
Definition process_connection (v : Variant) (repos : JsSet.t Repo)
    (c : Connection) : PageStep :=
  match edges_of v c with
  | None => Raise TypeError
  | Some es =>
      let repos' := JsSet.add_all repos es in
      match pageInfo_of v c with
      | None => Raise TypeError
      | Some p =>
          if hasNextPage p then Next repos' (endCursor p) else Stop repos' []
      end
  end.

(** The body of the [while (true)] loop after the answer arrived. *)
Definition process_page (v : Variant) (login : string) (repos : JsSet.t Repo)
    (r : GqlResponse) : PageStep :=
  match r_data r with
  | None => Stop repos [warn_not_found v login]
  | Some body =>
      match data body with
      | None => Stop repos [warn_not_found v login]
      | Some d =>
          match owner d with
          | None => Stop repos [warn_not_found v login]
          | Some o =>
              match repositories o, v with
              | Some c, _ => process_connection v repos c
              | None, (VUser | VGist) => Stop repos [warn_not_found v login]
              | None, VOrg => Raise TypeError
              end
          end
      end
  end.

(** The [while (true)] loop of one account, from the state ([cursor],
    [repos]) it is in; it returns the set, what it logged and requested,
    and the answers left. *)
Fixpoint walk (v : Variant) (login : string) (cursor : option string)
    (repos : JsSet.t Repo) (q : list (Outcome GqlResponse))
  : Res (JsSet.t Repo) * list Event * list (Outcome GqlResponse) :=
  let req := Post "/graphql" (graphqlQuery v login cursor) in
  match q with
  | [] => (Pending, [req], [])
  | Rejected reason :: q' => (Throw (HttpError reason), [req], q')
  | Resolved r :: q' =>
      match process_page v login repos r with
      | Stop s l => (Ok s, req :: l, q')
      | Raise e => (Throw e, [req], q')
      | Next s c =>
          let '(res, l, rest) := walk v login c s q' in (res, req :: l, rest)
      end
  end.

(** ** Asynchronous code as a state and error monad

    A computation reads answers off the [World], logs what it requests and
    prints, and ends fulfilled, rejected or still waiting. *)

Definition M (A : Type) : Type := World -> Res A * list Event * World.

Definition ret {A} (a : A) : M A := fun w => (Ok a, [], w).

Definition bind {A B} (m : M A) (k : A -> M B) : M B := fun w =>
  match m w with
  | (Ok a, l, w') => let '(r, l', w'') := k a w' in (r, l ++ l', w'')
  | (Throw e, l, w') => (Throw e, l, w')
  | (Pending, l, w') => (Pending, l, w')
  end.

Definition emit (e : Event) : M unit := fun w => (Ok tt, [e], w).

Definition throw {A} (e : JsError) : M A := fun w => (Throw e, [], w).

Notation "'let*' x ':=' m 'in' k" := (bind m (fun x => k))
  (at level 10, x name, m at level 100, k at level 200).

(** The page walk of one account, on the GraphQL answers of the world. *)
Definition walk_account (v : Variant) (login : string) : M (JsSet.t Repo) :=
  fun w =>
    let '(r, l, q) := walk v login None JsSet.empty (graphqlQ w) in
    (r, l, {| graphqlQ := q; gistsQ := gistsQ w; issuesQ := issuesQ w |}).

(** The gists of one account, [try { ... } catch (error) { console.warn }]:
    every failure leaves the set as it is. *)
Definition fetch_gists (login : string) : M (JsSet.t Gist) := fun w =>
  let req := Get ("/users/" +:+ login +:+ "/gists") [] in
  let warn reason :=
    Warn ("Error fetching gists for user " +:+ Str.dq +:+ login +:+ Str.dq
          +:+ ": " +:+ reason) in
  let world q := {| graphqlQ := graphqlQ w; gistsQ := q; issuesQ := issuesQ w |} in
  match gistsQ w with
  | [] => (Pending, [req], w)
  | Rejected reason :: q => (Ok JsSet.empty, [req; warn reason], world q)
  | Resolved (Malformed error) :: q =>
      (Ok JsSet.empty, [req; warn error], world q)
  | Resolved (Wellformed gs) :: q =>
      (Ok (JsSet.add_all JsSet.empty gs), [req], world q)
  end.

(** What the fetch records per account.  The engines without gists store
    the set of repositories alone; there [gists] stays empty and is never
    read. *)
Record AccountData := mkAccountData {
  repos : JsSet.t Repo;
  gists : JsSet.t Gist
}.

(** The [for (const user of usernames)] loop of the fetch, from the map
    built so far. *)
Fixpoint fetch_accounts (v : Variant) (usernames : list string)
    (m : gmap string AccountData) : M (gmap string AccountData) :=
  match usernames with
  | [] => ret m
  | user :: rest =>
      let* rs := walk_account v user in
      let* gs := match v with
                 | VGist => fetch_gists user
                 | _ => ret JsSet.empty
                 end in
      fetch_accounts v rest (<[user := {| repos := rs; gists := gs |}]> m)
  end.

(** The function handed to [rateLimit]: [getRepos] before memoisation
    ([getReposAndGists] in the gist engine). *)
Definition getRepos_body (v : Variant) (usernames : list string)
  : M (gmap string AccountData) :=
  fetch_accounts v usernames ∅.

(** Modelled from the spec: [rateLimit] of [../util], which is not among
    the sources.  Section 4.1 of the specification gives it no expiry and
    no cache of failures: a call made while no run is in flight runs the
    producer.  Calls of one [search] are made one after the other, so each
    of them runs the producer.  Overlapping calls are the subject of
    [Memoizer] below. *)
Definition rateLimit {A} (producer : M A) (maxConcurrent : nat) : M A :=
  producer.

(** ** Regular expressions of [search] *)

Module Regex.

Import Str.

(** [kw:\w] at the head of [s]. *)
Definition qualifier_here (kw s : string) : bool :=
  match strip_prefix (kw +:+ ":") s with
  | Some (String c _) => is_word c
  | _ => false
  end.

(** [/\b(kw1|kw2|...):\w/.test(s)], where [prev_word] tells whether the
    character before [s] is a word character.  Every keyword starts with
    a letter, so [\b] holds exactly when there is no such character or it
    is no word character. *)
Fixpoint test_from (kws : list string) (prev_word : bool) (s : string)
  : bool :=
  match s with
  | EmptyString => false
  | String c s' =>
      (negb prev_word && existsb (fun kw => qualifier_here kw s) kws)
      || test_from kws (is_word c) s'
  end.

Definition test (kws : list string) (s : string) : bool :=
  test_from kws false s.

(** Split off the longest prefix of characters satisfying [f]. *)
Fixpoint span (f : ascii -> bool) (s : string) : string * string :=
  match s with
  | EmptyString => (EmptyString, EmptyString)
  | String c s' =>
      if f c then let '(a, b) := span f s' in (String c a, b)
      else (EmptyString, s)
  end.

(** [/ *:[a-z-]+: */] at the head of [s]: the length of the match.
    Each starred part is followed by a character outside its class, so
    the greedy match is the only one. *)
Definition shortcode_here (s : string) : option nat :=
  let '(sp1, r1) := span is_space s in
  match r1 with
  | String c1 r2 =>
      if is_colon c1 then
        let '(w, r3) := span is_lower_hyphen r2 in
        match w, r3 with
        | String _ _, String c2 r4 =>
            if is_colon c2 then
              let '(sp2, _) := span is_space r4 in
              Some (String.length sp1 + 1 + String.length w + 1
                    + String.length sp2)
            else None
        | _, _ => None
        end
      else None
  | EmptyString => None
  end.

(** [s.replace(/ *:[a-z-]+: */g, empty)], with [skip] characters of a
    match still to be dropped. *)
Fixpoint strip_from (skip : nat) (s : string) : string :=
  match s with
  | EmptyString => EmptyString
  | String c s' =>
      match skip with
      | S k => strip_from k s'
      | O =>
          match shortcode_here s with
          | Some n => strip_from (pred n) s'
          | None => String c (strip_from 0 s')
          end
      end
  end.

Definition strip_shortcodes (s : string) : string := strip_from 0 s.

(** [/github\.com\/([^\/]+\/[^\/]+)/] at the head of [s]: group 1. *)
Definition owner_repo_here (s : string) : option string :=
  match strip_prefix "github.com/" s with
  | Some rest =>
      let '(a, r1) := span (fun c => negb (is_slash c)) rest in
      match a, r1 with
      | String _ _, String _ r2 =>
          let '(b, _) := span (fun c => negb (is_slash c)) r2 in
          match b with
          | String _ _ => Some (a +:+ "/" +:+ b)
          | EmptyString => None
          end
      | _, _ => None
      end
  | None => None
  end.

(** [s.match(/github\.com\/([^\/]+\/[^\/]+)/)?.[1]] *)
Fixpoint owner_repo (s : string) : option string :=
  match owner_repo_here s with
  | Some x => Some x
  | None =>
      match s with
      | EmptyString => None
      | String _ s' => owner_repo s'
      end
  end.

End Regex.

(** ** [Array.prototype.sort]

    The comparators of [search] never answer 0.  The sort is modelled by
    the insertion sort engines run on short arrays: each element in turn
    is put before the first element of the sorted prefix it compares below.
    The order among elements the comparator does not tell apart is the
    engine's; no statement below depends on it. *)

Section Sort.
Context {A : Type} (cmp : A -> A -> Z).

Fixpoint sort_insert (x : A) (sorted : list A) : list A :=
  match sorted with
  | [] => [x]
  | y :: t => if (cmp x y <? 0)%Z then x :: y :: t else y :: sort_insert x t
  end.

Definition js_sort (l : list A) : list A :=
  fold_left (fun acc x => sort_insert x acc) l [].
End Sort.

(** ** The engine: [init] and [search] *)

(** The helpers imported from [../util] and [marked] are not among the
    sources; the engine is stated over any implementation of them.
    [fuzzyIncludes] takes the value the call site passes, which is [null]
    ([None]) at one place of the organisation engine. *)
Class Util := {
  fuzzyIncludes : option string -> string -> bool;
  escapeQuotes : string -> string;
  getUnixTime : string -> Z;
  marked : string -> string
}.

Record Client := mkClient { baseURL : string; authorization : string }.

(** The module variables [client], [getRepos] ([getReposAndGists]) and
    [users] ([orgs]). *)
Record Engine := mkEngine {
  client : option Client;
  getRepos : option (M (gmap string AccountData));
  users : option (list string)
}.

Definition uninitialized : Engine :=
  {| client := None; getRepos := None; users := None |}.

Inductive Collected := Skip (w : Event) | Push (rs : list Result).

Section Engine.
Context {U : Util}.

Definition init (v : Variant) (usernames : list string)
    (origin : option string) (token : string) : Engine :=
  let axiosClient :=
    {| baseURL := default "https://api.github.com" origin;
       authorization := "bearer " +:+ token |} in
  {| client := Some axiosClient;
     getRepos := Some (rateLimit (getRepos_body v usernames) 1);
     users := Some usernames |}.

(** *** Repository and gist results *)

(** The callback of [some]: [(s) => s && fuzzyIncludes(s, q)] in the
    users engines, [(s) => fuzzyIncludes(s, q)] in the organisation
    engine. *)
Definition field_matches (v : Variant) (q : string) (s : option string)
  : bool :=
  match v with
  | VOrg => fuzzyIncludes s q
  | _ => Str.truthy_opt s && fuzzyIncludes s q
  end.

(** The callback of [filter] on repositories. *)
Definition keep (v : Variant) (q : string) (r : Obj Repo) : bool :=
  negb (isArchived (oval r)) && negb (isFork (oval r))
  && existsb (field_matches v q) [description (oval r); Some (name (oval r))].

(** [(a, b) => (a.name > b.name ? 1 : -1)] *)
Definition by_name (a b : Obj Repo) : Z :=
  if Str.gtb (name (oval a)) (name (oval b)) then 1%Z else (-1)%Z.

(** [(a, b) => (a.updated_at > b.updated_at ? 1 : -1)] *)
Definition by_updated_at (a b : Obj Gist) : Z :=
  if Str.gtb (g_updated_at (oval a)) (g_updated_at (oval b))
  then 1%Z else (-1)%Z.

(** [x || undefined] on a string or [null]. *)
Definition or_undefined (s : option string) : option string :=
  if Str.truthy_opt s then s else None.

Definition repoResult (login : string) (r : Obj Repo) : Result :=
  {| modified := None;
     snippet :=
       or_undefined (Regex.strip_shortcodes <$> description (oval r));
     title := "Repo " +:+ login +:+ "/" +:+ name (oval r);
     url := "https://github.com/" +:+ login +:+ "/" +:+ name (oval r) |}.

(** The repositories that pass the filter, sorted. *)
Definition survivors (v : Variant) (q : string) (s : JsSet.t Repo)
  : list (Obj Repo) :=
  js_sort by_name (List.filter (keep v q) (JsSet.to_array s)).

Definition repoResults (v : Variant) (login q : string) (s : JsSet.t Repo)
  : list Result :=
  map (repoResult login) (survivors v q s).

Definition gistResult (login : string) (g : Obj Gist) : Result :=
  {| modified := None;
     snippet := or_undefined (g_description (oval g));
     title := "Gist " +:+ login +:+ "/" +:+ g_id (oval g);
     url := g_html_url (oval g) |}.

Definition gistResults (login q : string) (s : JsSet.t Gist) : list Result :=
  map (gistResult login)
    (js_sort by_updated_at
       (List.filter
          (fun g => Str.truthy_opt (g_description (oval g))
                    && fuzzyIncludes (g_description (oval g)) q)
          (JsSet.to_array s))).

(** The first half of the loop body of [search], up to the point where
    the results of the collection are pushed or the account is left with
    [continue]. *)
Definition collection (v : Variant) (data : gmap string AccountData)
    (login q : string) : Collected :=
  match v with
  | VUser =>
      let userRepos := default JsSet.empty (repos <$> data !! login) in
      if JsSet.size userRepos =? 0
      then Skip (Warn ("No repositories found for user: " +:+ login))
      else Push (repoResults v login q userRepos)
  | VOrg =>
      let orgRepos := default JsSet.empty (repos <$> data !! login) in
      Push (repoResults v login q orgRepos)
  | VGist =>
      match data !! login with
      | None => Skip (Warn ("No data found for user: " +:+ login))
      | Some d =>
          if (JsSet.size (repos d) =? 0) && (JsSet.size (gists d) =? 0)
          then Skip (Warn ("No repositories or gists found for user: "
                           +:+ login))
          else Push (repoResults v login q (repos d)
                     ++ gistResults login q (gists d))
      end
  end.

(** *** Issues and pull requests *)

Definition scope_keyword (v : Variant) : string :=
  match v with VOrg => "org" | _ => "user" end.

(** The alternatives of [/\b(is|author|user):\w/]. *)
Definition qualifiers (v : Variant) : list string :=
  ["is"; "author"; scope_keyword v].

(** The parameter [q] of [GET /search/issues]. *)
Definition liveQuery (v : Variant) (login q : string) : string :=
  if Regex.test (qualifiers v) q then
    if Regex.test [scope_keyword v] q then q
    else scope_keyword v +:+ ":" +:+ login +:+ " " +:+ q
  else scope_keyword v +:+ ":" +:+ login +:+ " "
       +:+ Str.dq +:+ escapeQuotes q +:+ Str.dq.

Definition liveResult (item : Hit) : Result :=
  {| modified := Some (getUnixTime (h_updated_at item));
     snippet :=
       match h_body item with
       | Some b =>
           if Str.truthy b
           then Some ("<blockquote>" +:+ marked b +:+ "</blockquote>")
           else None
       | None => None
       end;
     title :=
       (if h_pull_request item then "PR" else "Issue") +:+ " in "
       +:+ default "undefined" (Regex.owner_repo (h_html_url item))
       +:+ ": " +:+ h_title item;
     url := h_html_url item |}.

(** What the [catch] of the live search does: the users engines print
    the error, the organisation engine ignores it. *)
Definition on_live_error (v : Variant) (reason : string) : list Event :=
  match v with
  | VOrg => []
  | _ => [Error ("Error fetching issues and pull requests: " +:+ reason)]
  end.

(** The second half of the loop body: [try { ... } catch]. *)
Definition live_search (v : Variant) (login q : string) : M (list Result) :=
  fun w =>
    let req :=
      Get "/search/issues" [("per_page", "100"); ("q", liveQuery v login q)] in
    let world iq :=
      {| graphqlQ := graphqlQ w; gistsQ := gistsQ w; issuesQ := iq |} in
    match issuesQ w with
    | [] => (Pending, [req], w)
    | Rejected reason :: iq => (Ok [], req :: on_live_error v reason, world iq)
    | Resolved (Malformed error) :: iq =>
        (Ok [], req :: on_live_error v error, world iq)
    | Resolved (Wellformed items) :: iq =>
        (Ok (map liveResult items), [req], world iq)
    end.

(** The [for (const user of users)] loop of [search]. *)
Fixpoint search_loop (v : Variant) (g : M (gmap string AccountData))
    (q : string) (us : list string) (results : list Result)
  : M (list Result) :=
  match us with
  | [] => ret results
  | user :: rest =>
      let* data := g in
      match collection v data user q with
      | Skip w =>
          let* u := emit w in search_loop v g q rest results
      | Push rs =>
          let* hits := live_search v user q in
          search_loop v g q rest (results ++ rs ++ hits)
      end
  end.

Definition search (v : Variant) (st : Engine) (q : string) : M (list Result) :=
  match client st, getRepos st, users st with
  | Some _, Some g, Some us => search_loop v g q us []
  | _, _, _ => throw NotInitialized
  end.

End Engine.

(** ** Vocabulary of the statements *)

(** A well-formed page of the cursor protocol, and the answer carrying
    it. *)
Record Page := mkPage {
  p_items : list (Obj Repo);
  p_endCursor : option string;
  p_hasNextPage : bool
}.

Definition page_response (p : Page) : GqlResponse :=
  {| r_data := Some {| data := Some {| owner := Some {| repositories :=
       Some {| edges := Present (p_items p);
               pageInfo := Present {| endCursor := p_endCursor p;
                                      hasNextPage := p_hasNextPage p |} |}
     |} |} |} |}.

Definition answer (p : Page) : Outcome GqlResponse :=
  Resolved (page_response p).

(** The answer has no [data], or [data] has no owner ([user] or
    [organization]). *)
Definition lacks_owner (r : GqlResponse) : bool :=
  match r_data r with
  | None => true
  | Some b =>
      match data b with
      | None => true
      | Some d => match owner d with None => true | Some _ => false end
      end
  end.

(** The answer has the owner, and the owner has no [repositories]. *)
Definition lacks_repositories (r : GqlResponse) : bool :=
  match r_data r with
  | Some {| data := Some {| owner := Some {| repositories := None |} |} |} =>
      true
  | _ => false
  end.

(** The request of the page that follows [cursor]. *)
Definition page_request (v : Variant) (login : string) (cursor : option string)
  : Event :=
  Post "/graphql" (graphqlQuery v login cursor).

(** The set the fetch records for [login] when it is the only account;
    [None] when the fetch is not fulfilled. *)
Definition recorded (v : Variant) (login : string) (w : World)
  : option (JsSet.t Repo) :=
  match getRepos_body v [login] w with
  | (Ok m, _, _) => repos <$> m !! login
  | _ => None
  end.

(** The members of a list of objects, each identity once, in order of
    first occurrence. *)
Fixpoint distinct_objects {A} (seen : list nat) (xs : list (Obj A))
  : list (Obj A) :=
  match xs with
  | [] => []
  | x :: t =>
      if existsb (Nat.eqb (oid x)) seen then distinct_objects seen t
      else x :: distinct_objects (oid x :: seen) t
  end.

(** An answer to a page request that the walk of engine [v] gets through
    without raising: fulfilled, and of a shape the loop body handles. *)
Definition handled (v : Variant) (o : Outcome GqlResponse) : bool :=
  match o with
  | Resolved r =>
      match process_page v EmptyString JsSet.empty r with
      | Raise _ => false
      | _ => true
      end
  | Rejected _ => false
  end.

(** Result, log and world of a run. *)
Definition res_of {A} (x : Res A * list Event * World) : Res A := x.1.1.
Definition world_of {A} (x : Res A * list Event * World) : World := x.2.

(** A computation that, on a world whose page answers are all [handled],
    does not raise and leaves such a world. *)
Definition Safe {A} (v : Variant) (m : M A) : Prop :=
  forall w,
    Forall (fun o => handled v o = true) (graphqlQ w) ->
    match res_of (m w) with Throw _ => False | _ => True end
    /\ Forall (fun o => handled v o = true) (graphqlQ (world_of (m w))).

(** A result that carries no date, or is the image of a hit of the live
    search. *)
Definition undated_or_live {U : Util} (r : Result) : Prop :=
  modified r = None \/ exists item, r = liveResult item.

Definition is_live_request (e : Event) : bool :=
  match e with
  | Get path _ => String.eqb path "/search/issues"
  | _ => false
  end.

(** Ascending order of the names of two repositories. *)
Definition name_le (a b : Obj Repo) : Prop :=
  (name (oval a) ≤ name (oval b))%string.

(** The account has nothing cached that [search] of the users engines
    goes on with. *)
Definition nothing_cached (v : Variant) (m : gmap string AccountData)
    (login : string) : bool :=
  match v with
  | VUser => JsSet.size (default JsSet.empty (repos <$> m !! login)) =? 0
  | VGist =>
      match m !! login with
      | None => true
      | Some d => (JsSet.size (repos d) =? 0) && (JsSet.size (gists d) =? 0)
      end
  | VOrg => false
  end.

Module Pattern.

Import Str.

(** Whether the last character of [pre] is a word character; [start]
    answers for the empty string. *)
Fixpoint ends_in_word (start : bool) (pre : string) : bool :=
  match pre with
  | EmptyString => start
  | String c p => ends_in_word (is_word c) p
  end.

(** [q] holds a qualifier token: one of the keywords, at the start of [q]
    or after a character that is no word character, followed by a colon
    and a word character. *)
Definition HasToken (kws : list string) (q : string) : Prop :=
  exists pre kw c post,
    In kw kws /\ q = pre +:+ kw +:+ ":" +:+ String c post
    /\ is_word c = true /\ ends_in_word false pre = false.

Fixpoint all_chars (f : ascii -> bool) (s : string) : bool :=
  match s with
  | EmptyString => true
  | String c s' => f c && all_chars f s'
  end.

Fixpoint spaces (n : nat) : string :=
  match n with
  | O => EmptyString
  | S k => String " " (spaces k)
  end.

(** An emoji shortcode with the spaces around it: spaces, a colon, one or
    more lower-case letters or hyphens, a colon, spaces. *)
Definition Shortcode (t : string) : Prop :=
  exists n w m,
    t = spaces n +:+ ":" +:+ w +:+ ":" +:+ spaces m
    /\ w <> EmptyString /\ all_chars is_lower_hyphen w = true.

(** [s] is empty or starts with a character outside the class [f]. *)
Definition head_fails (f : ascii -> bool) (s : string) : Prop :=
  match s with
  | EmptyString => True
  | String c _ => f c = false
  end.

Definition no_space_ahead (s : string) : Prop := head_fails is_space s.

(** [Stripped d out]: [out] is [d] without its shortcodes, read from the
    left: where a shortcode starts, the longest one is dropped; any other
    character is kept. *)
Inductive Stripped : string -> string -> Prop :=
| stripped_end : Stripped EmptyString EmptyString
| stripped_keep c s out :
    (forall t rest, String c s = t +:+ rest -> ~ Shortcode t) ->
    Stripped s out -> Stripped (String c s) (String c out)
| stripped_drop t rest out :
    Shortcode t -> no_space_ahead rest ->
    Stripped rest out -> Stripped (t +:+ rest) out.

(** The specification's wording of the snippet: [out] is [d] with the
    shortcodes at its end taken off. *)
Definition TrailingStripped (d out : string) : Prop :=
  exists ts, d = out +:+ fold_right String.append EmptyString ts
             /\ Forall Shortcode ts
             /\ (forall p t, out = p +:+ t -> ~ Shortcode t).

End Pattern.

(** ** Overlapping calls of the memoised fetch *)

Module Memoizer.

(** Modelled from the spec: the wrapper returned by [rateLimit] of
    [../util], which is not among the sources, as section 4.1 and section
    5 of the specification describe it.  Tasks are cooperative: between
    two events nothing else runs.  A call made while a producer run is in
    flight receives the promise of that run; a call made otherwise starts
    a run.  When the run settles, fulfilled or rejected, its promise is
    delivered to all who hold it and nothing is kept. *)

Inductive Ev :=
| Call (caller : nat)        (* a search calls the wrapped function *)
| Settle (fulfilled : bool). (* the producer run in flight settles *)

Record State := mkState {
  in_flight : option nat;          (* the run whose promise is pending *)
  started : nat;                   (* producer runs started so far *)
  handed : list (nat * nat);       (* caller, run whose promise it got *)
  settled : list (nat * bool)      (* run, fulfilled? *)
}.

Definition idle : State :=
  {| in_flight := None; started := 0; handed := []; settled := [] |}.

(** Modelled from the spec: one event of the wrapper.  A call joins the
    run in flight when there is one and starts a run otherwise; settling
    clears the run in flight and keeps no result. *)
Definition step (s : State) (e : Ev) : State :=
  match e, in_flight s with
  | Call c, Some r =>
      {| in_flight := Some r; started := started s;
         handed := handed s ++ [(c, r)]; settled := settled s |}
  | Call c, None =>
      let r := S (started s) in
      {| in_flight := Some r; started := r;
         handed := handed s ++ [(c, r)]; settled := settled s |}
  | Settle ok, Some r =>
      {| in_flight := None; started := started s;
         handed := handed s; settled := settled s ++ [(r, ok)] |}
  | Settle _, None => s
  end.

Definition run (s : State) (tr : list Ev) : State := fold_left step tr s.

(** The number of started runs that have not settled. *)
Definition unsettled (s : State) : nat :=
  match in_flight s with Some _ => 1 | None => 0 end.

(** What a caller ends up with: the outcome of the run it was handed. *)
Definition outcome_of (s : State) (r : nat) : option bool :=
  snd <$> List.find (fun x => fst x =? r) (settled s).

End Memoizer.

(** ** Concrete inputs *)

Module Examples.

Definition contains (hay needle : string) : bool :=
  match String.index 0 needle hay with Some _ => true | None => false end.

(** A plain implementation of the helpers, to run the engine on inputs. *)
Definition plainUtil : Util :=
  {| fuzzyIncludes := fun s q =>
       match s with Some t => contains t q | None => false end;
     escapeQuotes := fun s => s;
     getUnixTime := fun _ => 0%Z;
     marked := fun s => s |}.

Definition tool : Repo :=
  {| description := Some "a CLI tool"; isArchived := false; isFork := false;
     name := "tool-x" |}.

Definition page_of (items : list (Obj Repo)) (cursor : option string)
    (more : bool) : Page :=
  {| p_items := items; p_endCursor := cursor; p_hasNextPage := more |}.

(** Two pages that both list the repository [tool]; parsing the two
    answers yields two objects. *)
Definition twice : World :=
  {| graphqlQ := [answer (page_of [mkObj 1 tool] (Some "c1") true);
                  answer (page_of [mkObj 2 tool] None false)];
     gistsQ := []; issuesQ := [] |}.

(** An organisation whose answer has [data.organization] without
    [repositories], followed by an organisation with one repository. *)
Definition ghost_org : World :=
  {| graphqlQ :=
       [Resolved {| r_data := Some {| data := Some {| owner :=
                      Some {| repositories := None |} |} |} |};
        answer (page_of [mkObj 1 tool] None false)];
     gistsQ := []; issuesQ := [] |}.

(** The first page request is rejected. *)
Definition offline : World :=
  {| graphqlQ := [Rejected "Error: connect ECONNREFUSED"];
     gistsQ := []; issuesQ := [] |}.

Definition issue : Hit :=
  {| h_body := Some "it crashes";
     h_html_url := "https://github.com/alice/tool-x/issues/1";
     h_number := 1; h_pull_request := false; h_title := "crash";
     h_updated_at := "2020-01-01T00:00:00Z"; h_user_login := "bob" |}.

(** An account without repositories, and a live search that would find an
    issue. *)
Definition no_repos : World :=
  {| graphqlQ := [answer (page_of [] None false)];
     gistsQ := []; issuesQ := [Resolved (Wellformed [issue])] |}.

(** One repository; the live search fails. *)
Definition live_down : World :=
  {| graphqlQ := [answer (page_of [mkObj 1 tool] None false)];
     gistsQ := []; issuesQ := [Rejected "Error: timeout"] |}.

Definition rocket : Obj Repo :=
  mkObj 1 {| description := Some "ship :rocket: it"; isArchived := false;
             isFork := false; name := "ship" |}.

Definition tada : Obj Repo :=
  mkObj 2 {| description := Some ":tada:"; isArchived := false;
             isFork := false; name := "party" |}.

End Examples.

(** ** Further vocabulary *)

(** A fulfilled answer whose [data] and owner are present and whose
    [repositories] is [c]. *)
Definition connection_response (c : Connection) : GqlResponse :=
  {| r_data := Some {| data := Some {| owner := Some {| repositories :=
       Some c |} |} |} |}.

(** The cursor the loop holds after the pages [ps], starting from
    [cursor]. *)
Definition chain_cursor (cursor : option string) (ps : list Page)
  : option string :=
  fold_left (fun _ p => p_endCursor p) ps cursor.

(** The requests of the pages [ps], the first from [cursor]. *)
Fixpoint chain_requests (v : Variant) (login : string)
    (cursor : option string) (ps : list Page) : list Event :=
  match ps with
  | [] => []
  | p :: t => page_request v login cursor
              :: chain_requests v login (p_endCursor p) t
  end.

Definition is_page_request (e : Event) : bool :=
  match e with Post _ _ => true | _ => false end.

Definition count_page_requests (log : list Event) : nat :=
  length (List.filter is_page_request log).

Definition count_live_requests (log : list Event) : nat :=
  length (List.filter is_live_request log).

(** The members of a set are pairwise distinct objects. *)
Definition distinct_members {A} (s : JsSet.t A) : Prop :=
  List.NoDup (map oid s).

(** Ascending order of the update times of two gists. *)
Definition updated_le (a b : Obj Gist) : Prop :=
  (g_updated_at (oval a) ≤ g_updated_at (oval b))%string.

(** The callback of [filter] on gists:
    [(g) => g.description && fuzzyIncludes(g.description, q)]. *)
Definition keep_gist {U : Util} (q : string) (g : Obj Gist) : bool :=
  Str.truthy_opt (g_description (oval g))
  && fuzzyIncludes (g_description (oval g)) q.

Definition slash_free (s : string) : bool :=
  Pattern.all_chars (fun c => negb (Str.is_slash c)) s.

Definition colon_free (s : string) : bool :=
  Pattern.all_chars (fun c => negb (Str.is_colon c)) s.

(** A computation that requests no live search and uses no answer of the
    issue endpoint. *)
Definition Quiet {A} (m : M A) : Prop :=
  forall w,
    count_live_requests (m w).1.2 = 0 /\ issuesQ (m w).2 = issuesQ w.


Definition is_get (e : Event) : bool :=
  match e with Get _ _ => true | _ => false end.

(** A computation that makes no GET request and uses no answer of the
    gist endpoint. *)
Definition NoGet {A} (m : M A) : Prop :=
  forall w,
    Forall (fun e => is_get e = false) (m w).1.2
    /\ gistsQ (m w).2 = gistsQ w.

(** The event, when it is a POST, asks [/graphql] for up to 100
    repositories of [login], as a user or an organisation according to the
    engine. *)
Definition asks_for (v : Variant) (login : string) (e : Event) : Prop :=
  match e with
  | Post path query =>
      path = "/graphql" /\ q_login query = login /\ q_first query = 100
      /\ q_kind query = owner_kind v
  | _ => True
  end.

(** A computation all of whose logged events satisfy [P]. *)
Definition Logs {A} (P : Event -> Prop) (m : M A) : Prop :=
  forall w, Forall P (m w).1.2.

(** The event, when it is a POST, asks [/graphql] for up to 100
    repositories of one of the accounts [us]. *)
Definition asks_for_one_of (v : Variant) (us : list string) (e : Event)
  : Prop :=
  match e with
  | Post path query =>
      path = "/graphql" /\ In (q_login query) us /\ q_first query = 100
      /\ q_kind query = owner_kind v
  | _ => True
  end.

(** The text of the error the [catch] of a failed request receives. *)
Definition failure_text {A} (o : Outcome (Body A)) : string :=
  match o with
  | Rejected reason => reason
  | Resolved (Malformed error) => error
  | Resolved (Wellformed _) => EmptyString
  end.

(** The cursor a page request carries for the value [c] of [endCursor]:
    [c] itself when it is a non-empty string, none when it is null or
    the empty string. *)
Definition carried (c : option string) : option string :=
  match c with
  | Some (String a s) => Some (String a s)
  | _ => None
  end.

(** The page request for [login] with the argument [after]. *)
Definition request_with (v : Variant) (login : string) (after : option string)
  : Event :=
  Post "/graphql"
    {| q_kind := match v with VOrg => KOrganization | _ => KUser end;
       q_login := login;
       q_first := 100;
       q_after := after |}.

(** Two pages, the first of which announces a next page and returns the
    empty string as [endCursor]. *)
Definition empty_cursor_pages : list Page :=
  [Examples.page_of [mkObj 1 Examples.tool] (Some EmptyString) true;
   Examples.page_of [mkObj 2 Examples.tool] None false].

(** The fuzzy match of a field of a repository against the query: in the
    users engines the field is a non-empty string that [fuzzyIncludes]
    accepts; the organisation engine asks [fuzzyIncludes] alone. *)
Definition FuzzyMatches {U : Util} (v : Variant) (q : string)
    (field : option string) : Prop :=
  match v with
  | VOrg => fuzzyIncludes field q = true
  | _ => exists t, field = Some t /\ t <> EmptyString
                   /\ fuzzyIncludes (Some t) q = true
  end.

(** The repository is neither archived nor a fork, and its description
    or its name matches. *)
Definition Survives {U : Util} (v : Variant) (q : string) (r : Obj Repo)
  : Prop :=
  isArchived (oval r) = false /\ isFork (oval r) = false
  /\ (FuzzyMatches v q (description (oval r))
      \/ FuzzyMatches v q (Some (name (oval r)))).

(** Answers for the accounts bob, alice and carol, in this order; both
    pages of alice list the repository [tool]. *)
Definition three_accounts : World :=
  {| graphqlQ :=
       [answer (Examples.page_of [mkObj 3 Examples.tool] None false);
        answer (Examples.page_of [mkObj 1 Examples.tool] (Some "c1") true);
        answer (Examples.page_of [mkObj 2 Examples.tool] None false);
        answer (Examples.page_of [] None false)];
     gistsQ := []; issuesQ := [] |}.

(** * Properties *)

(** ** Sets of objects *)

Lemma has_existsb {A} (s : JsSet.t A) (o : Obj A) :
  JsSet.has s o = existsb (Nat.eqb (oid o)) (map oid s).
Proof.
  unfold JsSet.has. induction s as [|x s IH]; simpl; [reflexivity|].
  rewrite IH. f_equal. apply Nat.eqb_sym.
Qed.

Lemma distinct_objects_seen {A} (xs : list (Obj A)) :
  forall seen1 seen2,
    (forall n, existsb (Nat.eqb n) seen1 = existsb (Nat.eqb n) seen2) ->
    distinct_objects seen1 xs = distinct_objects seen2 xs.
Proof.
  induction xs as [|x t IH]; intros seen1 seen2 Hs; simpl; [reflexivity|].
  rewrite (Hs (oid x)). destruct (existsb _ seen2).
  - apply IH, Hs.
  - f_equal. apply IH. intros n. simpl. now rewrite Hs.
Qed.

(** [add_all] appends the objects not yet in the set, each once. *)
Lemma add_all_distinct {A} (xs : list (Obj A)) :
  forall s, JsSet.add_all s xs = s ++ distinct_objects (map oid s) xs.
Proof.
  unfold JsSet.add_all.
  induction xs as [|x t IH]; intros s; simpl.
  - now rewrite app_nil_r.
  - unfold JsSet.add at 2. rewrite has_existsb.
    destruct (existsb _ (map oid s)) eqn:E.
    + apply IH.
    + rewrite IH, <- app_assoc. simpl. do 2 f_equal.
      apply distinct_objects_seen. intros n.
      rewrite map_app, existsb_app. simpl.
      rewrite orb_false_r. apply orb_comm.
Qed.

Lemma add_all_app {A} (s : JsSet.t A) (xs ys : list (Obj A)) :
  JsSet.add_all (JsSet.add_all s xs) ys = JsSet.add_all s (xs ++ ys).
Proof. unfold JsSet.add_all. now rewrite fold_left_app. Qed.

Lemma existsb_eqb_In (n : nat) (l : list nat) :
  existsb (Nat.eqb n) l = true <-> In n l.
Proof.
  rewrite existsb_exists. split.
  - intros (x & Hx & E). apply Nat.eqb_eq in E. now subst.
  - intros Hn. exists n. split; [assumption | apply Nat.eqb_refl].
Qed.

(** Objects that are pairwise distinct, and distinct from those seen, are
    all kept. *)
Lemma distinct_objects_fresh {A} (xs : list (Obj A)) :
  forall seen, List.NoDup (seen ++ map oid xs) -> distinct_objects seen xs = xs.
Proof.
  induction xs as [|x t IH]; intros seen Hnd; simpl; [reflexivity|].
  simpl in Hnd.
  destruct (existsb (Nat.eqb (oid x)) seen) eqn:E.
  - apply existsb_eqb_In in E. exfalso.
    apply NoDup_remove_2 in Hnd. apply Hnd. apply in_or_app. now left.
  - f_equal. apply IH.
    apply (Permutation_NoDup (l := seen ++ oid x :: map oid t));
      [|assumption].
    symmetry. apply Permutation_middle.
Qed.

(** ** The paginated walk *)

Lemma process_page_answer v login s p :
  process_page v login s (page_response p)
  = if p_hasNextPage p
    then Next (JsSet.add_all s (p_items p)) (p_endCursor p)
    else Stop (JsSet.add_all s (p_items p)) [].
Proof. destruct v; reflexivity. Qed.

(** The walk over pages that each announce a next page, up to one that
    does not: one request per page, each built from the cursor of the page
    before; the set holds the items of all pages. *)
Lemma walk_chain v login (ps : list Page) :
  forall cursor s last rest,
    Forall (fun p => p_hasNextPage p = true) ps ->
    p_hasNextPage last = false ->
    walk v login cursor s (map answer (ps ++ [last]) ++ rest)
    = (Ok (JsSet.add_all s (concat (map p_items (ps ++ [last])))),
       map (page_request v login) (cursor :: map p_endCursor ps),
       rest).
Proof.
  induction ps as [|p ps IH]; intros cursor s last rest Hps Hlast.
  - cbn [map app walk answer]. rewrite process_page_answer, Hlast.
    cbn [concat map]. now rewrite app_nil_r.
  - inversion Hps as [|? ? Hp Hps']; subst.
    cbn [map app walk answer]. rewrite process_page_answer, Hp.
    fold (answer last).
    change (map (fun p0 => Resolved (page_response p0)) ps)
      with (map answer ps).
    replace (map answer ps ++ [answer last]) with (map answer (ps ++ [last]))
      by (now rewrite map_app).
    rewrite (IH (p_endCursor p) _ last rest Hps' Hlast).
    cbn [concat map]. now rewrite <- add_all_app.
Qed.

(** The [after] argument of a request is the cursor when that is a
    non-empty string; a request built from no cursor, or from an empty
    one, has none. *)
Lemma graphqlQuery_after v login (c : string) :
  c <> EmptyString -> q_after (graphqlQuery v login (Some c)) = Some c.
Proof.
  intros Hc. unfold graphqlQuery, Str.truthy_opt, Str.truthy. cbn.
  destruct (String.eqb_spec c EmptyString); [contradiction | reflexivity].
Qed.

Lemma graphqlQuery_no_cursor v login :
  q_after (graphqlQuery v login None) = None.
Proof. reflexivity. Qed.

(** What [fetch_accounts] does for its first account once the walk of
    that account is known. *)
Lemma fetch_accounts_walk v login rest m w s log q :
  walk v login None JsSet.empty (graphqlQ w) = (Ok s, log, q) ->
  fetch_accounts v (login :: rest) m w
  = let w1 := {| graphqlQ := q; gistsQ := gistsQ w; issuesQ := issuesQ w |} in
    match (match v with VGist => fetch_gists login | _ => ret JsSet.empty end) w1
    with
    | (Ok gs, l1, w2) =>
        let '(r, l2, w3) :=
          fetch_accounts v rest (<[login := {| repos := s; gists := gs |}]> m) w2
        in (r, log ++ l1 ++ l2, w3)
    | (Throw e, l1, w2) => (Throw e, log ++ l1, w2)
    | (Pending, l1, w2) => (Pending, log ++ l1, w2)
    end.
Proof.
  intros Hw. cbn [fetch_accounts]. unfold bind at 1, walk_account. rewrite Hw.
  unfold bind.
  destruct (match v with VGist => fetch_gists login | _ => ret JsSet.empty end
              _) as [[[gs|e|] l1] w2]; try reflexivity.
  destruct (fetch_accounts v rest _ w2) as [[r l2] w3]. reflexivity.
Qed.

Lemma fetch_gists_settles login w :
  gistsQ w <> [] ->
  exists gs l w', fetch_gists login w = (Ok gs, l, w')
                  /\ graphqlQ w' = graphqlQ w /\ issuesQ w' = issuesQ w.
Proof.
  intros Hq. unfold fetch_gists.
  destruct (gistsQ w) as [|[[gs|err]|reason] q]; [contradiction | | |];
    eexists; eexists; eexists; (split; [reflexivity | split; reflexivity]).
Qed.

Lemma recorded_walk v login w s log q :
  walk v login None JsSet.empty (graphqlQ w) = (Ok s, log, q) ->
  (v = VGist -> gistsQ w <> []) ->
  recorded v login w = Some s.
Proof.
  intros Hw Hg. unfold recorded, getRepos_body.
  rewrite (fetch_accounts_walk _ _ _ _ _ _ _ _ Hw). cbn zeta.
  destruct v.
  - cbn. now rewrite lookup_insert_eq.
  - cbn. now rewrite lookup_insert_eq.
  - destruct (fetch_gists_settles login
               {| graphqlQ := q; gistsQ := gistsQ w; issuesQ := issuesQ w |})
      as (gs & l & w' & E & _); [now apply Hg|].
    rewrite E. cbn. now rewrite lookup_insert_eq.
Qed.

(** C1 (as stated) fails: two pages that list the same repository leave
    two members with equal fields in the recorded set. *)
Lemma recorded_set_keeps_equal_items :
  exists s, recorded VUser "alice" Examples.twice = Some s
            /\ map oval s = [Examples.tool; Examples.tool]
            /\ ~ List.NoDup (map oval s).
Proof.
  exists [mkObj 1 Examples.tool; mkObj 2 Examples.tool]. split; [|split].
  - unfold recorded, getRepos_body. cbn. now rewrite lookup_insert_eq.
  - reflexivity.
  - intros Hnd. inversion Hnd as [|? ? Hin _]; subst. apply Hin. now left.
Qed.

(** An answer without [data], without the owner, or, in the users
    engines, without [repositories] ends the walk of the account with a
    warning and the set gathered so far. *)
Lemma walk_stops_on_missing_shape v login cursor s r rest :
  lacks_owner r = true \/ (v <> VOrg /\ lacks_repositories r = true) ->
  walk v login cursor s (Resolved r :: rest)
  = (Ok s, [page_request v login cursor; warn_not_found v login], rest).
Proof.
  intros Hshape. cbn [walk]. unfold process_page.
  unfold lacks_owner, lacks_repositories in Hshape.
  destruct (r_data r) as [[[[[[[c|]]|]]|]]|];
    try reflexivity; destruct Hshape as [H|[Hv H]]; try discriminate.
  destruct v; [reflexivity | contradiction | reflexivity].
Qed.

(** The same at any page: after pages that each announce a next page,
    such an answer ends the walk with the items gathered so far. *)
Lemma walk_chain_then_missing v login (ps : list Page) :
  forall cursor s r rest,
    Forall (fun p => p_hasNextPage p = true) ps ->
    lacks_owner r = true \/ (v <> VOrg /\ lacks_repositories r = true) ->
    walk v login cursor s (map answer ps ++ Resolved r :: rest)
    = (Ok (JsSet.add_all s (concat (map p_items ps))),
       map (page_request v login) (cursor :: map p_endCursor ps)
       ++ [warn_not_found v login],
       rest).
Proof.
  induction ps as [|p ps IH]; intros cursor s r rest Hps Hshape.
  - now apply walk_stops_on_missing_shape.
  - inversion Hps as [|? ? Hp Hps']; subst.
    cbn [map app walk answer]. rewrite process_page_answer, Hp.
    change (map (fun p0 => Resolved (page_response p0)) ps)
      with (map answer ps).
    rewrite (IH (p_endCursor p) _ r rest Hps' Hshape).
    cbn [concat map]. now rewrite <- add_all_app.
Qed.

(** In the users engine the fetch goes on with the next account after
    such an answer, with the empty set recorded for the account. *)
Lemma fetch_accounts_missing_shape login rest m w r q :
  graphqlQ w = Resolved r :: q ->
  lacks_owner r = true \/ lacks_repositories r = true ->
  fetch_accounts VUser (login :: rest) m w
  = let '(res, l, w') :=
      fetch_accounts VUser rest
        (<[login := {| repos := JsSet.empty; gists := JsSet.empty |}]> m)
        {| graphqlQ := q; gistsQ := gistsQ w; issuesQ := issuesQ w |} in
    (res, [page_request VUser login None; warn_not_found VUser login] ++ l, w').
Proof.
  intros Hq Hshape.
  rewrite (fetch_accounts_walk VUser login rest m w JsSet.empty
             [page_request VUser login None; warn_not_found VUser login] q).
  - cbn. now destruct (fetch_accounts VUser rest _ _) as [[res l] w'].
  - rewrite Hq. apply walk_stops_on_missing_shape.
    destruct Hshape as [H|H]; [now left | right].
    split; [discriminate | exact H].
Qed.

(** In the organisation engine an answer without [repositories] raises
    wherever it comes. *)
Lemma walk_org_raises_without_repositories login cursor s r rest :
  lacks_repositories r = true ->
  walk VOrg login cursor s (Resolved r :: rest)
  = (Throw TypeError, [page_request VOrg login cursor], rest).
Proof.
  intros Hshape. cbn [walk]. unfold process_page.
  unfold lacks_repositories in Hshape.
  destruct (r_data r) as [[[[[[[c|]]|]]|]]|]; try discriminate. reflexivity.
Qed.

(** C4, the failing input: in the organisation engine an answer whose
    [data.organization] has no [repositories] raises a TypeError when it
    is destructured; the fetch is rejected, nothing is recorded for the
    account and the accounts after it are not processed. *)
Theorem getRepos_org_raises_without_repositories :
  getRepos_body VOrg ["ghost"; "next"] Examples.ghost_org
  = (Throw TypeError,
     [page_request VOrg "ghost" None],
     {| graphqlQ := [answer (Examples.page_of [mkObj 1 Examples.tool] None false)];
        gistsQ := []; issuesQ := [] |}).
Proof. reflexivity. Qed.

(** The users engine on the same answers: a warning, an empty set for the
    account, and the next account is processed. *)
Lemma getRepos_user_goes_on_without_repositories :
  exists m log w,
    getRepos_body VUser ["ghost"; "next"] Examples.ghost_org = (Ok m, log, w)
    /\ repos <$> m !! "ghost" = Some []
    /\ repos <$> m !! "next" = Some [mkObj 1 Examples.tool]
    /\ log = [page_request VUser "ghost" None; warn_not_found VUser "ghost";
              page_request VUser "next" None].
Proof.
  eexists. eexists. eexists. split; [reflexivity|].
  split; [|split; [|reflexivity]].
  - rewrite lookup_insert_ne by discriminate. now rewrite lookup_insert_eq.
  - now rewrite lookup_insert_eq.
Qed.

(** ** What [search] lets through *)

Lemma safe_ret {A} v (a : A) : Safe v (ret a).
Proof. intros w Hw. split; [exact I | exact Hw]. Qed.

Lemma safe_emit v (e : Event) : Safe v (emit e).
Proof. intros w Hw. split; [exact I | exact Hw]. Qed.

Lemma safe_bind {A B} v (m : M A) (k : A -> M B) :
  Safe v m -> (forall a, Safe v (k a)) -> Safe v (bind m k).
Proof.
  intros Hm Hk w Hw. specialize (Hm w Hw).
  unfold bind, res_of, world_of in *.
  destruct (m w) as [[[a|e|] l] w1]; cbn in Hm |- *.
  - specialize (Hk a w1 (proj2 Hm)). unfold res_of, world_of in Hk.
    destruct (k a w1) as [[r' l'] w2]. exact Hk.
  - destruct Hm as [[] _].
  - exact Hm.
Qed.

Lemma res_of_bind {A B} (m : M A) (k : A -> M B) w :
  res_of (bind m k w)
  = match m w with
    | (Ok a, _, w') => res_of (k a w')
    | (Throw e, _, _) => Throw e
    | (Pending, _, _) => Pending
    end.
Proof.
  unfold bind, res_of. destruct (m w) as [[[a|e|] l] w']; try reflexivity.
  now destruct (k a w') as [[r l'] w''].
Qed.

(** Whether the loop body raises depends on the shape of the answer
    alone. *)
Lemma handled_process_page v r login s :
  handled v (Resolved r) = true ->
  forall e, process_page v login s r <> Raise e.
Proof.
  unfold handled, process_page, process_connection, edges_of, pageInfo_of.
  intros Hh e.
  destruct (r_data r) as [b|]; [|discriminate].
  destruct (data b) as [d|]; [|discriminate].
  destruct (owner d) as [o|]; [|discriminate].
  destruct (repositories o) as [c|], v; try discriminate;
    destruct (edges c), (pageInfo c) as [| |p]; try discriminate;
    try destruct (hasNextPage p); discriminate.
Qed.

Lemma walk_safe v login (q : list (Outcome GqlResponse)) :
  forall cursor s,
    Forall (fun o => handled v o = true) q ->
    match (walk v login cursor s q).1.1 with Throw _ => False | _ => True end
    /\ Forall (fun o => handled v o = true) (walk v login cursor s q).2.
Proof.
  induction q as [|o q IH]; intros cursor s Hq.
  - split; [exact I | constructor].
  - inversion Hq as [|? ? Ho Hq']; subst. cbn [walk].
    destruct o as [r|reason]; [|discriminate Ho].
    pose proof (handled_process_page v r login s Ho) as Hnr.
    destruct (process_page v login s r) as [s' l|s' c|e].
    + split; [exact I | exact Hq'].
    + specialize (IH c s' Hq').
      destruct (walk v login c s' q) as [[r' l'] rest]. exact IH.
    + exfalso. now apply (Hnr e).
Qed.

Lemma safe_walk_account v login : Safe v (walk_account v login).
Proof.
  intros w Hw. unfold walk_account, res_of, world_of.
  pose proof (walk_safe v login (graphqlQ w) None JsSet.empty Hw) as Hs.
  destruct (walk v login None JsSet.empty (graphqlQ w)) as [[r l] q].
  exact Hs.
Qed.

(** The gist fetch never raises. *)
Lemma fetch_gists_caught login w :
  match res_of (fetch_gists login w) with Throw _ => False | _ => True end
  /\ graphqlQ (world_of (fetch_gists login w)) = graphqlQ w.
Proof.
  unfold fetch_gists, res_of, world_of.
  destruct (gistsQ w) as [|[[gs|err]|reason] q]; split; easy.
Qed.

Lemma safe_fetch_gists v login : Safe v (fetch_gists login).
Proof.
  intros w Hw. destruct (fetch_gists_caught login w) as [H1 H2].
  split; [exact H1 | now rewrite H2].
Qed.

Lemma safe_fetch_accounts v (usernames : list string) :
  forall m, Safe v (fetch_accounts v usernames m).
Proof.
  induction usernames as [|user rest IH]; intros m; cbn [fetch_accounts].
  - apply safe_ret.
  - apply safe_bind; [apply safe_walk_account|]. intros rs.
    apply safe_bind; [|intros gs; apply IH].
    destruct v; first [apply safe_ret | apply safe_fetch_gists].
Qed.

Section SearchFacts.
Context {U : Util}.

(** The live search never raises. *)
Lemma live_search_caught v login q w :
  match res_of (live_search v login q w) with Throw _ => False | _ => True end
  /\ graphqlQ (world_of (live_search v login q w)) = graphqlQ w.
Proof.
  unfold live_search, res_of, world_of.
  destruct (issuesQ w) as [|[[items|err]|reason] iq]; split; easy.
Qed.

Lemma safe_live_search v login q : Safe v (live_search v login q).
Proof.
  intros w Hw. destruct (live_search_caught v login q w) as [H1 H2].
  split; [exact H1 | now rewrite H2].
Qed.

Lemma safe_search_loop v g q (us : list string) :
  Safe v g -> forall results, Safe v (search_loop v g q us results).
Proof.
  intros Hg. induction us as [|user rest IH]; intros results;
    cbn [search_loop].
  - apply safe_ret.
  - apply safe_bind; [exact Hg|]. intros data.
    destruct (collection v data user q) as [w0|rs].
    + apply safe_bind; [apply safe_emit | intros; apply IH].
    + apply safe_bind; [apply safe_live_search | intros; apply IH].
Qed.

End SearchFacts.

Section SearchSteps.
Context {U : Util}.

Lemma collection_skips v data login q :
  nothing_cached v data login = true ->
  exists msg, collection v data login q = Skip (Warn msg).
Proof.
  unfold nothing_cached, collection. destruct v; intros Hn.
  - rewrite Hn. eexists; reflexivity.
  - discriminate.
  - destruct (data !! login) as [d|]; [rewrite Hn|]; eexists; reflexivity.
Qed.

(** C3 (as amended): in the users engines, with and without gists, an
    account for which the fetch has nothing cached -- no repositories, in
    the gist engine no gists either, or no entry -- is left with
    [continue]: a warning is printed, the account adds no result, no live
    search is requested for it and no answer of the issue endpoint is
    used; the loop goes on with the next account. *)
Theorem empty_account_is_skipped v g q login rest results w data l0 w1 :
  g w = (Ok data, l0, w1) ->
  nothing_cached v data login = true ->
  exists msg,
    search_loop v g q (login :: rest) results w
    = let '(r, l, w') := search_loop v g q rest results w1 in
      (r, l0 ++ Warn msg :: l, w').
Proof.
  intros Hg Hn. destruct (collection_skips v data login q Hn) as [msg Hc].
  exists msg. cbn [search_loop]. unfold bind at 1. rewrite Hg, Hc.
  unfold bind, emit.
  now destruct (search_loop v g q rest results w1) as [[r l] w'].
Qed.

Lemma repoResults_undated v login q s :
  Forall (fun r => modified r = None) (repoResults v login q s).
Proof.
  unfold repoResults. apply List.Forall_forall. intros r Hr.
  apply in_map_iff in Hr. destruct Hr as (o & <- & _). reflexivity.
Qed.

Lemma gistResults_undated login q s :
  Forall (fun r => modified r = None) (gistResults login q s).
Proof.
  unfold gistResults. apply List.Forall_forall. intros r Hr.
  apply in_map_iff in Hr. destruct Hr as (o & <- & _). reflexivity.
Qed.

Lemma collection_undated v data login q rs :
  collection v data login q = Push rs ->
  Forall (fun r => modified r = None) rs.
Proof.
  unfold collection. destruct v.
  - destruct (_ =? 0); [discriminate|]. intros [= <-].
    apply repoResults_undated.
  - intros [= <-]. apply repoResults_undated.
  - destruct (data !! login) as [d|]; [|discriminate].
    destruct (_ && _); [discriminate|]. intros [= <-].
    apply Forall_app. split;
      [apply repoResults_undated | apply gistResults_undated].
Qed.

Lemma live_search_results v login q w :
  match res_of (live_search v login q w) with
  | Ok rs => Forall (fun r => exists item, r = liveResult item) rs
  | _ => True
  end.
Proof.
  unfold live_search, res_of.
  destruct (issuesQ w) as [|[[items|err]|reason] iq]; cbn;
    try exact I; try constructor.
  apply List.Forall_forall. intros r Hr. apply in_map_iff in Hr.
  destruct Hr as (item & <- & _). now exists item.
Qed.

Lemma search_loop_undated_or_live v g q (us : list string) :
  forall results w,
    Forall undated_or_live results ->
    match res_of (search_loop v g q us results w) with
    | Ok rs => Forall undated_or_live rs
    | _ => True
    end.
Proof.
  induction us as [|user rest IH]; intros results w Hres;
    cbn [search_loop].
  - exact Hres.
  - rewrite res_of_bind. destruct (g w) as [[[data|e|] l] w1]; try exact I.
    destruct (collection v data user q) as [w0|rs] eqn:Hc.
    + rewrite res_of_bind. cbn. now apply IH.
    + rewrite res_of_bind.
      pose proof (live_search_results v user q w1) as Hl.
      unfold res_of in Hl.
      destruct (live_search v user q w1) as [[[hits|e|] l1] w2];
        try exact I.
      cbn in Hl. apply IH. repeat (apply Forall_app; split); [exact Hres | |].
      * eapply List.Forall_impl; [|exact (collection_undated _ _ _ _ _ Hc)].
        intros r Hr. now left.
      * eapply List.Forall_impl; [|exact Hl]. intros r Hr. now right.
Qed.

(** C10: repository results and gist results carry no [modified];
    the result of a hit of the live search carries the time of the hit's
    [updated_at]; and every result of a list that [search] returns carries
    no [modified] or is the result of such a hit. *)
Theorem only_live_results_are_dated :
  (forall v login q s,
     Forall (fun r => modified r = None) (repoResults v login q s))
  /\ (forall login q s,
        Forall (fun r => modified r = None) (gistResults login q s))
  /\ (forall login g, modified (gistResult login g) = None)
  /\ (forall item,
        modified (liveResult item) = Some (getUnixTime (h_updated_at item)))
  /\ (forall v st q w,
        match res_of (search v st q w) with
        | Ok rs => Forall undated_or_live rs
        | _ => True
        end).
Proof.
  split; [exact repoResults_undated|].
  split; [exact gistResults_undated|].
  split; [reflexivity|]. split; [reflexivity|].
  intros v st q w. unfold search.
  destruct (client st), (getRepos st), (users st); try exact I.
  apply search_loop_undated_or_live. constructor.
Qed.

End SearchSteps.

(** ** The engine on concrete inputs *)

(** With the live search down, [search] returns the repository result
    alone and prints the error. *)
Lemma search_with_live_search_down :
  search (U := Examples.plainUtil) VUser (init VUser ["alice"] None "t")
    "tool" Examples.live_down
  = (Ok [{| modified := None; snippet := Some "a CLI tool";
            title := "Repo alice/tool-x";
            url := "https://github.com/alice/tool-x" |}],
     [page_request VUser "alice" None;
      Get "/search/issues"
        [("per_page", "100");
         ("q", "user:alice " +:+ Str.dq +:+ "tool" +:+ Str.dq)];
      Error "Error fetching issues and pull requests: Error: timeout"],
     {| graphqlQ := []; gistsQ := []; issuesQ := [] |}).
Proof. vm_compute. reflexivity. Qed.

(** C2 (as stated) fails: no handler surrounds [await getRepos()], so a
    rejected page request rejects [search] of an initialised engine with
    the error of the request. *)
Lemma search_raises_when_a_page_request_is_rejected :
  search (U := Examples.plainUtil) VUser (init VUser ["alice"] None "t")
    "tool" Examples.offline
  = (Throw (HttpError "Error: connect ECONNREFUSED"),
     [page_request VUser "alice" None],
     {| graphqlQ := []; gistsQ := []; issuesQ := [] |}).
Proof. reflexivity. Qed.

Lemma empty_account_is_skipped_witness :
  let g := getRepos_body VUser ["alice"] in
  let data : gmap string AccountData :=
    <["alice" := {| repos := []; gists := [] |}]> ∅ in
  let w1 := {| graphqlQ := []; gistsQ := [];
               issuesQ := [Resolved (Wellformed [Examples.issue])] |} in
  g Examples.no_repos = (Ok data, [page_request VUser "alice" None], w1)
  /\ nothing_cached VUser data "alice" = true
  /\ exists msg,
       search_loop (U := Examples.plainUtil) VUser g "crash" ["alice"] []
         Examples.no_repos
       = let '(r, l, w') :=
           search_loop (U := Examples.plainUtil) VUser g "crash" [] [] w1 in
         (r, [page_request VUser "alice" None] ++ Warn msg :: l, w').
Proof.
  intros g data w1.
  assert (H1 : g Examples.no_repos
               = (Ok data, [page_request VUser "alice" None], w1))
    by reflexivity.
  assert (H2 : nothing_cached VUser data "alice" = true).
  { unfold nothing_cached, data. now rewrite lookup_insert_eq. }
  split; [exact H1 | split; [exact H2 |]].
  exact (empty_account_is_skipped (U := Examples.plainUtil) VUser g "crash"
           "alice" [] [] Examples.no_repos data
           [page_request VUser "alice" None] w1 H1 H2).
Defined.

(** C3 (as stated) fails: for an account without repositories the users
    engine returns nothing and requests no live search, although the
    issue endpoint would have answered with a hit; the answer is still
    unused afterwards. *)
Lemma search_skips_live_search_of_empty_account :
  exists log,
    search (U := Examples.plainUtil) VUser (init VUser ["alice"] None "t")
      "crash" Examples.no_repos
    = (Ok [], log,
       {| graphqlQ := []; gistsQ := [];
          issuesQ := [Resolved (Wellformed [Examples.issue])] |})
    /\ log = [page_request VUser "alice" None;
              Warn "No repositories found for user: alice"]
    /\ existsb is_live_request log = false.
Proof.
  eexists. split; [|split]; [| reflexivity |]; vm_compute; reflexivity.
Qed.

(** The organisation engine has no such guard: on the same answers it
    runs the live search and returns the hit. *)
Lemma search_org_runs_live_search_of_empty_account :
  exists r log,
    search (U := Examples.plainUtil) VOrg (init VOrg ["alice"] None "t")
      "crash" Examples.no_repos
    = (Ok [r], log, {| graphqlQ := []; gistsQ := []; issuesQ := [] |})
    /\ r = liveResult (U := Examples.plainUtil) Examples.issue
    /\ existsb is_live_request log = true.
Proof.
  eexists. eexists. split; [|split]; [| reflexivity |]; vm_compute; reflexivity.
Qed.

(** ** Strings and patterns *)

Lemma append_assoc (a b c : string) : (a +:+ b) +:+ c = a +:+ b +:+ c.
Proof.
  induction a as [|x a IH]; [reflexivity|].
  change (String x ((a +:+ b) +:+ c) = String x (a +:+ b +:+ c)).
  now rewrite IH.
Qed.

Lemma append_empty_r (a : string) : a +:+ EmptyString = a.
Proof.
  induction a as [|x a IH]; [reflexivity|].
  change (String x (a +:+ EmptyString) = String x a). now rewrite IH.
Qed.

Lemma append_is_empty (a b : string) : a +:+ b = EmptyString -> a = EmptyString /\ b = EmptyString.
Proof. destruct a; [now split | discriminate]. Qed.

Lemma length_append (a b : string) :
  String.length (a +:+ b) = String.length a + String.length b.
Proof.
  induction a as [|x a IH]; [reflexivity|].
  change (S (String.length (a +:+ b)) = S (String.length a + String.length b)).
  now rewrite IH.
Qed.

Lemma strip_prefix_spec (p : string) :
  forall s rest, Str.strip_prefix p s = Some rest <-> s = p +:+ rest.
Proof.
  induction p as [|a p IH]; intros s rest.
  - cbn. split; [now intros [= ->] | now intros ->].
  - destruct s as [|b s]; cbn.
    + split; discriminate.
    + change (String a p +:+ rest) with (String a (p +:+ rest)).
      destruct (Ascii.eqb_spec a b) as [->|Hne].
      * rewrite IH. split; [now intros -> | now intros [= ->]].
      * split; [discriminate | intros [= E _]; now destruct Hne].
Qed.

Lemma qualifier_here_spec kw s :
  Regex.qualifier_here kw s = true
  <-> exists c post, s = kw +:+ ":" +:+ String c post /\ Str.is_word c = true.
Proof.
  unfold Regex.qualifier_here. split.
  - destruct (Str.strip_prefix (kw +:+ ":") s) as [[|c post]|] eqn:E;
      try discriminate.
    intros Hc. exists c, post. split; [|exact Hc].
    apply strip_prefix_spec in E. now rewrite append_assoc in E.
  - intros (c & post & -> & Hc).
    assert (E : Str.strip_prefix (kw +:+ ":") (kw +:+ ":" +:+ String c post)
                = Some (String c post))
      by (apply strip_prefix_spec; now rewrite append_assoc).
    now rewrite E.
Qed.

(** The test of the pattern finds exactly the qualifier tokens. *)
Lemma test_from_spec kws (s : string) :
  forall start,
    Regex.test_from kws start s = true
    <-> exists pre kw c post,
          In kw kws /\ s = pre +:+ kw +:+ ":" +:+ String c post
          /\ Str.is_word c = true /\ Pattern.ends_in_word start pre = false.
Proof.
  induction s as [|a s IH]; intros start.
  - cbn. split; [discriminate|].
    intros (pre & kw & c & post & _ & E & _). symmetry in E.
    apply append_is_empty in E as [_ E].
    apply append_is_empty in E as [_ E]. discriminate.
  - cbn [Regex.test_from]. rewrite orb_true_iff, andb_true_iff, negb_true_iff.
    rewrite existsb_exists. split.
    + intros [(Hstart & kw & Hin & Hq) | Hrest].
      * apply qualifier_here_spec in Hq as (c & post & E & Hc).
        exists EmptyString, kw, c, post. repeat split; assumption.
      * apply IH in Hrest as (pre & kw & c & post & Hin & -> & Hc & Hb).
        exists (String a pre), kw, c, post. repeat split; assumption.
    + intros (pre & kw & c & post & Hin & E & Hc & Hb).
      destruct pre as [|b pre].
      * left. split; [exact Hb|]. exists kw. split; [exact Hin|].
        apply qualifier_here_spec. now exists c, post.
      * right. injection E as -> ->. apply IH.
        now exists pre, kw, c, post.
Qed.

Lemma test_spec kws q : Regex.test kws q = true <-> Pattern.HasToken kws q.
Proof. apply test_from_spec. Qed.

Section LiveQuery.
Context {U : Util}.

(** C7: the query of the live search.  A raw query that holds a qualifier
    token ([is:], [author:], or the scope [user:], in the organisation
    engine [org:]) and holds the scope token is passed unchanged; one
    that holds a qualifier token but not the scope token gets the scope
    of the account put before it; any other is put between double quotes,
    its quote characters escaped by [escapeQuotes], after the scope of the
    account. *)
Theorem liveQuery_cases v login q :
  (Pattern.HasToken (qualifiers v) q ->
   Pattern.HasToken [scope_keyword v] q ->
   liveQuery v login q = q)
  /\ (Pattern.HasToken (qualifiers v) q ->
      ~ Pattern.HasToken [scope_keyword v] q ->
      liveQuery v login q = scope_keyword v +:+ ":" +:+ login +:+ " " +:+ q)
  /\ (~ Pattern.HasToken (qualifiers v) q ->
      liveQuery v login q
      = scope_keyword v +:+ ":" +:+ login +:+ " "
        +:+ Str.dq +:+ escapeQuotes q +:+ Str.dq).
Proof.
  unfold liveQuery.
  destruct (Regex.test (qualifiers v) q) eqn:E1;
    destruct (Regex.test [scope_keyword v] q) eqn:E2;
    repeat split; intros; try reflexivity;
    try (apply test_spec in E1); try (apply test_spec in E2);
    try contradiction;
    try (match goal with
         | H : Pattern.HasToken _ _ |- _ =>
             apply test_spec in H; congruence
         end).
Qed.

End LiveQuery.

Lemma liveQuery_cases_witness :
  Pattern.HasToken (qualifiers VUser) "crash user:bob"
  /\ Pattern.HasToken [scope_keyword VUser] "crash user:bob"
  /\ Pattern.HasToken (qualifiers VUser) "is:open crash"
  /\ ~ Pattern.HasToken [scope_keyword VUser] "is:open crash"
  /\ ~ Pattern.HasToken (qualifiers VUser) "fix crash"
  /\ liveQuery (U := Examples.plainUtil) VUser "bob" "crash user:bob"
     = "crash user:bob"
  /\ liveQuery (U := Examples.plainUtil) VUser "alice" "is:open crash"
     = "user:alice is:open crash"
  /\ liveQuery (U := Examples.plainUtil) VUser "alice" "fix crash"
     = "user:alice " +:+ Str.dq +:+ "fix crash" +:+ Str.dq.
Proof.
  assert (H1 : Pattern.HasToken (qualifiers VUser) "crash user:bob")
    by (apply test_spec; reflexivity).
  assert (H2 : Pattern.HasToken [scope_keyword VUser] "crash user:bob")
    by (apply test_spec; reflexivity).
  assert (H3 : Pattern.HasToken (qualifiers VUser) "is:open crash")
    by (apply test_spec; reflexivity).
  assert (H4 : ~ Pattern.HasToken [scope_keyword VUser] "is:open crash")
    by (intros H; apply test_spec in H; discriminate H).
  assert (H5 : ~ Pattern.HasToken (qualifiers VUser) "fix crash")
    by (intros H; apply test_spec in H; discriminate H).
  repeat (split; [assumption|]).
  split; [|split].
  - exact (proj1 (liveQuery_cases (U := Examples.plainUtil)
                    VUser "bob" "crash user:bob") H1 H2).
  - exact (proj1 (proj2 (liveQuery_cases (U := Examples.plainUtil)
                           VUser "alice" "is:open crash")) H3 H4).
  - exact (proj2 (proj2 (liveQuery_cases (U := Examples.plainUtil)
                           VUser "alice" "fix crash")) H5).
Defined.

(** ** Sorting *)

Section SortFacts.
Context {A : Type} (cmp : A -> A -> Z) (R : A -> A -> Prop).
Hypothesis below : forall x y, (cmp x y < 0)%Z -> R x y.
Hypothesis not_below : forall x y, ~ (cmp x y < 0)%Z -> R y x.

Lemma sort_insert_perm x (l : list A) : Permutation (sort_insert cmp x l) (x :: l).
Proof.
  induction l as [|y t IH]; cbn; [reflexivity|].
  destruct (cmp x y <? 0)%Z; [reflexivity|].
  rewrite IH. apply perm_swap.
Qed.

Lemma js_sort_from_perm (l : list A) :
  forall acc,
    Permutation (fold_left (fun acc x => sort_insert cmp x acc) l acc)
                (acc ++ l).
Proof.
  induction l as [|x t IH]; intros acc; cbn.
  - now rewrite app_nil_r.
  - rewrite IH, sort_insert_perm. apply Permutation_middle.
Qed.

Lemma js_sort_perm (l : list A) : Permutation (js_sort cmp l) l.
Proof. apply (js_sort_from_perm l []). Qed.

Lemma sort_insert_hd x y (l : list A) :
  R y x -> HdRel R y l -> HdRel R y (sort_insert cmp x l).
Proof.
  intros Hyx Hl. destruct l as [|z t]; cbn; [now constructor|].
  destruct (cmp x z <? 0)%Z; constructor; [exact Hyx|].
  now inversion Hl.
Qed.

Lemma sort_insert_sorted x (l : list A) :
  Sorted R l -> Sorted R (sort_insert cmp x l).
Proof.
  induction l as [|y t IH]; intros Hl; cbn.
  - repeat constructor.
  - inversion Hl as [|? ? Ht Hhd]; subst.
    destruct (Z.ltb_spec (cmp x y) 0) as [Hlt|Hge].
    + constructor; [exact Hl|]. constructor. now apply below.
    + constructor; [now apply IH|].
      apply sort_insert_hd; [|exact Hhd]. apply not_below. lia.
Qed.

Lemma js_sort_from_sorted (l : list A) :
  forall acc,
    Sorted R acc ->
    Sorted R (fold_left (fun acc x => sort_insert cmp x acc) l acc).
Proof.
  induction l as [|x t IH]; intros acc Hacc; cbn; [exact Hacc|].
  apply IH. now apply sort_insert_sorted.
Qed.

Lemma js_sort_sorted (l : list A) : Sorted R (js_sort cmp l).
Proof. apply js_sort_from_sorted. constructor. Qed.

End SortFacts.

Lemma gtb_false_le (a b : string) : Str.gtb a b = false -> (a ≤ b)%string.
Proof.
  unfold Str.gtb, String.le, String.leb.
  now destruct (String.compare a b).
Qed.

Lemma gtb_true_le (a b : string) : Str.gtb a b = true -> (b ≤ a)%string.
Proof.
  unfold Str.gtb, String.le, String.leb.
  rewrite (String.compare_antisym a b).
  now destruct (String.compare b a).
Qed.

Section CollectionResults.
Context {U : Util}.

Lemma survivors_sorted v q s : StronglySorted name_le (survivors v q s).
Proof.
  apply Sorted_StronglySorted.
  - intros a b c Hab Hbc. unfold name_le in *. now transitivity (name (oval b)).
  - unfold survivors. apply js_sort_sorted; intros x y; unfold by_name, name_le.
    + destruct (Str.gtb _ _) eqn:E; [lia|]. intros _. now apply gtb_false_le.
    + destruct (Str.gtb _ _) eqn:E; [|lia]. intros _. now apply gtb_true_le.
Qed.

Lemma keep_spec v q r :
  keep v q r = true
  <-> isArchived (oval r) = false /\ isFork (oval r) = false
      /\ (field_matches v q (description (oval r)) = true
          \/ field_matches v q (Some (name (oval r))) = true).
Proof.
  unfold keep. cbn [existsb]. rewrite orb_false_r.
  rewrite !andb_true_iff, !negb_true_iff, orb_true_iff. tauto.
Qed.

(** Where [search] pushes them: the organisation engine always, the
    users engine when the set is not empty, the gist engine together with
    the gist results. *)
Lemma collection_pushes v data login q :
  nothing_cached v data login = false ->
  collection v data login q
  = Push (repoResults v login q (default JsSet.empty (repos <$> data !! login))
          ++ match v with
             | VGist =>
                 gistResults login q
                   (default JsSet.empty (gists <$> data !! login))
             | _ => []
             end).
Proof.
  unfold nothing_cached, collection. destruct v; intros Hn.
  - rewrite Hn. now rewrite app_nil_r.
  - now rewrite app_nil_r.
  - destruct (data !! login) as [d|]; [|discriminate]. now rewrite Hn.
Qed.

End CollectionResults.

(** ** The shortcode pattern *)

Module ShortcodeFacts.

Import Str Pattern.

Lemma append_cons c (a b : string) : String c a +:+ b = String c (a +:+ b).
Proof. reflexivity. Qed.

Lemma span_spec f (s : string) :
  forall a b, Regex.span f s = (a, b) ->
              s = a +:+ b /\ all_chars f a = true /\ head_fails f b.
Proof.
  induction s as [|c s IH]; intros a b; cbn.
  - intros [= <- <-]. repeat split.
  - destruct (f c) eqn:Hc.
    + destruct (Regex.span f s) as [a' b'] eqn:E. intros [= <- <-].
      destruct (IH a' b' eq_refl) as (-> & Ha & Hb).
      repeat split; [|exact Hb]. cbn. now rewrite Hc, Ha.
    + intros [= <- <-]. repeat split. exact Hc.
Qed.

Lemma span_append f (a : string) :
  forall b, all_chars f a = true -> head_fails f b ->
            Regex.span f (a +:+ b) = (a, b).
Proof.
  induction a as [|c a IH]; intros b Ha Hb.
  - change (EmptyString +:+ b) with b. destruct b as [|c b]; cbn; [reflexivity|].
    cbn in Hb. now rewrite Hb.
  - cbn in Ha. apply andb_true_iff in Ha as [Hc Ha].
    rewrite append_cons. cbn. now rewrite Hc, (IH b Ha Hb).
Qed.

Lemma is_space_eq c : is_space c = true -> c = " "%char.
Proof.
  unfold is_space. intros E. apply Nat.eqb_eq in E.
  rewrite <- (ascii_nat_embedding c), E. reflexivity.
Qed.

Lemma is_colon_eq c : is_colon c = true -> c = ":"%char.
Proof.
  unfold is_colon. intros E. apply Nat.eqb_eq in E.
  rewrite <- (ascii_nat_embedding c), E. reflexivity.
Qed.

Lemma all_spaces (a : string) :
  all_chars is_space a = true -> a = spaces (String.length a).
Proof.
  induction a as [|c a IH]; cbn; [reflexivity|].
  intros E. apply andb_true_iff in E as [Hc Ha].
  now rewrite (is_space_eq c Hc), <- (IH Ha).
Qed.

Lemma spaces_all n : all_chars is_space (spaces n) = true.
Proof. induction n; [reflexivity | exact IHn]. Qed.

Lemma length_spaces n : String.length (spaces n) = n.
Proof. induction n; cbn; [reflexivity | now rewrite IHn]. Qed.

Lemma spaces_add n m : spaces n +:+ spaces m = spaces (n + m).
Proof.
  induction n as [|n IH]; [reflexivity|].
  cbn [spaces Nat.add]. now rewrite append_cons, IH.
Qed.

(** The match at the head of [t +:+ rest] is the shortcode [t] when no
    space follows it. *)
Lemma shortcode_here_complete t rest :
  Shortcode t -> no_space_ahead rest ->
  Regex.shortcode_here (t +:+ rest) = Some (String.length t).
Proof.
  intros (n & w & m & -> & Hw & Hall) Hrest.
  rewrite !append_assoc. unfold Regex.shortcode_here.
  rewrite (span_append is_space (spaces n)); [|apply spaces_all|reflexivity].
  change (":" +:+ w +:+ ":" +:+ spaces m +:+ rest)
    with (String ":" (w +:+ String ":" (spaces m +:+ rest))).
  cbn [is_colon nat_of_ascii]. cbn match.
  change (is_colon ":") with true. cbn match.
  rewrite (span_append is_lower_hyphen w); [|exact Hall|reflexivity].
  destruct w as [|c w]; [contradiction|].
  change (is_colon ":") with true. cbn match.
  rewrite (span_append is_space (spaces m)); [|apply spaces_all|exact Hrest].
  f_equal. rewrite !length_append, !length_spaces. cbn. lia.
Qed.

(** A match at the head of [s] is a shortcode, the longest there. *)
Lemma shortcode_here_sound s n :
  Regex.shortcode_here s = Some n ->
  exists t rest, s = t +:+ rest /\ Shortcode t /\ no_space_ahead rest
                 /\ String.length t = n.
Proof.
  unfold Regex.shortcode_here.
  destruct (Regex.span is_space s) as [sp1 r1] eqn:E1.
  destruct r1 as [|c1 r2]; [discriminate|].
  destruct (is_colon c1) eqn:Hc1; [|discriminate].
  destruct (Regex.span is_lower_hyphen r2) as [w r3] eqn:E2.
  destruct w as [|cw w]; [discriminate|].
  destruct r3 as [|c2 r4]; [discriminate|].
  destruct (is_colon c2) eqn:Hc2; [|discriminate].
  destruct (Regex.span is_space r4) as [sp2 r5] eqn:E3.
  intros [= <-].
  apply span_spec in E1 as (-> & Hsp1 & _).
  apply span_spec in E2 as (-> & Hw & _).
  apply span_spec in E3 as (-> & Hsp2 & Hr5).
  apply is_colon_eq in Hc1 as ->. apply is_colon_eq in Hc2 as ->.
  exists (sp1 +:+ ":" +:+ String cw w +:+ ":" +:+ sp2), r5.
  split; [|split; [|split]].
  - rewrite !append_assoc. reflexivity.
  - exists (String.length sp1), (String cw w), (String.length sp2).
    rewrite <- (all_spaces sp1 Hsp1), <- (all_spaces sp2 Hsp2).
    repeat split; [discriminate | exact Hw].
  - exact Hr5.
  - rewrite !length_append. cbn. lia.
Qed.

(** A shortcode followed by spaces is a shortcode. *)
Lemma shortcode_more_spaces t k : Shortcode t -> Shortcode (t +:+ spaces k).
Proof.
  intros (n & w & m & -> & Hw & Hall). exists n, w, (m + k).
  rewrite !append_assoc, spaces_add. repeat split; assumption.
Qed.

Lemma shortcode_here_none s :
  Regex.shortcode_here s = None ->
  forall t rest, s = t +:+ rest -> ~ Shortcode t.
Proof.
  intros Hnone t rest -> Ht.
  destruct (Regex.span is_space rest) as [sp r] eqn:E.
  apply span_spec in E as (-> & Hsp & Hr).
  rewrite (all_spaces sp Hsp), <- append_assoc in Hnone.
  rewrite (shortcode_here_complete _ r (shortcode_more_spaces t _ Ht) Hr)
    in Hnone.
  discriminate.
Qed.

Lemma shortcode_nonempty t : Shortcode t -> t <> EmptyString.
Proof.
  intros (n & w & m & -> & _ & _) E.
  apply append_is_empty in E as [_ E]. discriminate.
Qed.

Lemma strip_from_skips (t : string) :
  forall rest,
    Regex.strip_from (String.length t) (t +:+ rest) = Regex.strip_from 0 rest.
Proof.
  induction t as [|c t IH]; intros rest; [reflexivity|].
  rewrite append_cons. cbn. apply IH.
Qed.

(** One step of the replacement at a match. *)
Lemma strip_from_match t rest :
  Shortcode t -> no_space_ahead rest ->
  Regex.strip_from 0 (t +:+ rest) = Regex.strip_from 0 rest.
Proof.
  intros Ht Hrest.
  pose proof (shortcode_here_complete t rest Ht Hrest) as E.
  destruct t as [|c t]; [now destruct (shortcode_nonempty EmptyString Ht)|].
  rewrite append_cons in E |- *. cbn [Regex.strip_from]. rewrite E.
  cbn [String.length Nat.pred]. apply strip_from_skips.
Qed.

(** The replacement computes the relation, on every string. *)
Lemma strip_shortcodes_stripped (s : string) :
  Stripped s (Regex.strip_shortcodes s).
Proof.
  unfold Regex.strip_shortcodes.
  remember (String.length s) as n eqn:Hn.
  revert s Hn. induction n as [n IH] using lt_wf_ind. intros s Hn.
  destruct s as [|c s]; [constructor|].
  destruct (Regex.shortcode_here (String c s)) as [k|] eqn:E.
  - destruct (shortcode_here_sound _ _ E) as (t & rest & Es & Ht & Hrest & _).
    rewrite Es, (strip_from_match t rest Ht Hrest).
    apply stripped_drop; [exact Ht | exact Hrest |].
    apply (IH (String.length rest)); [|reflexivity].
    subst n. rewrite Es, length_append.
    destruct t; [now destruct (shortcode_nonempty EmptyString Ht) | cbn; lia].
  - cbn [Regex.strip_from]. rewrite E.
    apply stripped_keep; [now apply shortcode_here_none|].
    apply (IH (String.length s)); [subst n; cbn; lia | reflexivity].
Qed.

(** The relation has no other result. *)
Lemma stripped_unique s out :
  Stripped s out -> out = Regex.strip_shortcodes s.
Proof.
  unfold Regex.strip_shortcodes.
  induction 1 as [|c s out Hno _ IH|t rest out Ht Hrest _ IH].
  - reflexivity.
  - cbn [Regex.strip_from].
    destruct (Regex.shortcode_here (String c s)) as [k|] eqn:E.
    + destruct (shortcode_here_sound _ _ E) as (t & rest & Es & Ht & _).
      now destruct (Hno t rest Es).
    + now rewrite IH.
  - now rewrite (strip_from_match t rest Ht Hrest).
Qed.

End ShortcodeFacts.

(** C9 (as amended): the snippet of a repository result is the
    description without its shortcodes, wherever they stand -- each
    shortcode goes together with the spaces around it, not only those at
    the end of the description; when nothing is left, or the description
    is null, the result has no snippet. *)
Theorem snippet_strips_every_shortcode login (r : Obj Repo) :
  (description (oval r) = None -> snippet (repoResult login r) = None)
  /\ (forall d out,
        description (oval r) = Some d ->
        Pattern.Stripped d out ->
        snippet (repoResult login r)
        = if Str.truthy out then Some out else None).
Proof.
  unfold repoResult. cbn [snippet]. split.
  - intros ->. reflexivity.
  - intros d out -> Hs.
    apply ShortcodeFacts.stripped_unique in Hs as ->. reflexivity.
Qed.

Lemma snippet_strips_every_shortcode_witness :
  description (oval Examples.rocket) = Some "ship :rocket: it"
  /\ Pattern.Stripped "ship :rocket: it" "shipit"
  /\ snippet (repoResult "alice" Examples.rocket)
     = if Str.truthy "shipit" then Some "shipit" else None.
Proof.
  assert (H1 : description (oval Examples.rocket) = Some "ship :rocket: it")
    by reflexivity.
  assert (H2 : Pattern.Stripped "ship :rocket: it" "shipit")
    by exact (ShortcodeFacts.strip_shortcodes_stripped "ship :rocket: it").
  split; [exact H1 | split; [exact H2 |]].
  exact (proj2 (snippet_strips_every_shortcode "alice" Examples.rocket)
           "ship :rocket: it" "shipit" H1 H2).
Defined.

(** C9 (as stated) fails: a shortcode in the middle of a description is
    removed, so the snippet is not the description with its trailing
    shortcodes taken off; and a description that is a shortcode alone,
    though not null, gives no snippet. *)
Lemma snippet_is_not_the_trailing_strip :
  description (oval Examples.rocket) = Some "ship :rocket: it"
  /\ snippet (repoResult "alice" Examples.rocket) = Some "shipit"
  /\ ~ Pattern.TrailingStripped "ship :rocket: it" "shipit"
  /\ description (oval Examples.tada) = Some ":tada:"
  /\ snippet (repoResult "alice" Examples.tada) = None.
Proof.
  split; [reflexivity|]. split; [reflexivity|]. split; [|split; reflexivity].
  intros (ts & E & _). discriminate E.
Qed.

(** ** Overlapping calls *)

Module MemoizerFacts.

Import Memoizer.

Lemma run_app s tr1 tr2 : run s (tr1 ++ tr2) = run (run s tr1) tr2.
Proof. apply fold_left_app. Qed.

(** At any time at most one run is unsettled, the latest one started. *)
Lemma one_run_in_flight (tr : list Ev) :
  forall s,
    started s = length (settled s) + unsettled s ->
    (forall r, in_flight s = Some r -> r = started s) ->
    started (run s tr) = length (settled (run s tr)) + unsettled (run s tr)
    /\ (forall r, in_flight (run s tr) = Some r -> r = started (run s tr)).
Proof.
  induction tr as [|e tr IH]; intros s H1 H2; [now split|].
  cbn [run fold_left]. apply IH.
  - unfold unsettled, step in *.
    destruct e as [c|ok], (in_flight s) as [r|] eqn:E; cbn;
      rewrite ?E, ?length_app; cbn; lia.
  - unfold step.
    destruct e as [c|ok], (in_flight s) as [r|] eqn:E; cbn;
      rewrite ?E; intros r'; try congruence.
    intros [= <-]. now apply H2.
Qed.

(** Calls that arrive while a run is in flight start nothing and are
    handed the promise of that run. *)
Lemma calls_in_flight (cs : list nat) :
  forall s r,
    in_flight s = Some r ->
    run s (map Call cs)
    = {| in_flight := Some r; started := started s;
         handed := handed s ++ map (fun c => (c, r)) cs;
         settled := settled s |}.
Proof.
  induction cs as [|c cs IH]; intros s r E.
  - cbn. rewrite app_nil_r. destruct s; cbn in *; now subst.
  - cbn [map run fold_left]. fold (run (step s (Call c)) (map Call cs)).
    rewrite (IH (step s (Call c)) r); unfold step; rewrite E; cbn;
      [|reflexivity].
    now rewrite <- app_assoc.
Qed.

(** The runs that settled are among those started. *)
Lemma settled_runs_started (tr : list Ev) :
  forall s,
    Forall (fun x => fst x <= started s) (settled s) ->
    (forall r, in_flight s = Some r -> r <= started s) ->
    Forall (fun x => fst x <= started (run s tr)) (settled (run s tr)).
Proof.
  induction tr as [|e tr IH]; intros s H1 H2; [exact H1|].
  cbn [run fold_left]. apply IH; unfold step.
  - destruct e as [c|ok], (in_flight s) as [r|] eqn:E; cbn;
      rewrite ?E; try exact H1.
    + eapply List.Forall_impl; [|exact H1]. cbn. intros x Hx. lia.
    + apply Forall_app. split; [exact H1|]. repeat constructor.
      now apply H2.
  - destruct e as [c|ok], (in_flight s) as [r|] eqn:E; cbn;
      rewrite ?E; intros r'; try congruence.
    + intros [= <-]. now apply H2.
    + intros [= <-]. lia.
Qed.

Lemma outcome_of_fresh_run (l : list (nat * bool)) n ok :
  Forall (fun x => fst x <= n) l ->
  List.find (fun x => fst x =? S n) (l ++ [(S n, ok)]) = Some (S n, ok).
Proof.
  induction 1 as [|x l Hx _ IH]; cbn.
  - now rewrite Nat.eqb_refl.
  - destruct (Nat.eqb_spec (fst x) (S n)); [lia | exact IH].
Qed.

End MemoizerFacts.

(** C5: in the model of the memoiser, the callers that arrive from an
    idle state up to the settling of the run -- the first and all that
    overlap with it -- are handed the promise of one and the same run,
    and one producer run is started for all of them; when it settles,
    fulfilled or rejected, that outcome is what they all hold, nothing
    stays in flight or cached, and the next call starts a new run.  At any time at most one started run is
    unsettled, so a run starts only after the one before it settled. *)
Theorem overlapping_calls_share_one_run
    (tr : list Memoizer.Ev) (c : nat) (cs : list nat) (ok : bool) (c' : nat) :
  let s0 := Memoizer.run Memoizer.idle tr in
  Memoizer.in_flight s0 = None ->
  let r := S (Memoizer.started s0) in
  let s1 := Memoizer.run s0 (map Memoizer.Call (c :: cs)) in
  let s2 := Memoizer.step s1 (Memoizer.Settle ok) in
  let s3 := Memoizer.step s2 (Memoizer.Call c') in
  (Memoizer.started s1 = r
   /\ Memoizer.in_flight s1 = Some r
   /\ Memoizer.handed s1
      = Memoizer.handed s0 ++ map (fun x => (x, r)) (c :: cs))
  /\ (Memoizer.started s2 = r
      /\ Memoizer.in_flight s2 = None
      /\ Memoizer.settled s2 = Memoizer.settled s0 ++ [(r, ok)]
      /\ Memoizer.outcome_of s2 r = Some ok)
  /\ (Memoizer.started s3 = S r
      /\ Memoizer.in_flight s3 = Some (S r)
      /\ Memoizer.handed s3 = Memoizer.handed s2 ++ [(c', S r)])
  /\ (forall tr',
        let s := Memoizer.run Memoizer.idle tr' in
        Memoizer.started s
        = length (Memoizer.settled s) + Memoizer.unsettled s
        /\ Memoizer.unsettled s <= 1).
Proof.
  intros s0 Hidle r s1 s2 s3.
  assert (E1 : s1 = {| Memoizer.in_flight := Some r;
                       Memoizer.started := r;
                       Memoizer.handed :=
                         Memoizer.handed s0 ++ map (fun x => (x, r)) (c :: cs);
                       Memoizer.settled := Memoizer.settled s0 |}).
  { unfold s1. cbn [map Memoizer.run fold_left].
    fold (Memoizer.run (Memoizer.step s0 (Memoizer.Call c))
            (map Memoizer.Call cs)).
    rewrite (MemoizerFacts.calls_in_flight cs _ r);
      unfold Memoizer.step; rewrite Hidle; cbn; [|reflexivity].
    now rewrite <- app_assoc. }
  assert (E2 : s2 = {| Memoizer.in_flight := None;
                       Memoizer.started := r;
                       Memoizer.handed := Memoizer.handed s1;
                       Memoizer.settled := Memoizer.settled s0 ++ [(r, ok)] |}).
  { unfold s2. rewrite E1. reflexivity. }
  split; [rewrite E1; repeat split|].
  split.
  { rewrite E2. repeat split. unfold Memoizer.outcome_of. cbn.
    rewrite (MemoizerFacts.outcome_of_fresh_run _ (Memoizer.started s0) ok);
      [reflexivity|].
    apply (MemoizerFacts.settled_runs_started tr Memoizer.idle);
      [constructor | discriminate]. }
  split; [unfold s3; rewrite E2; repeat split|].
  intros tr' s. split.
  - apply (MemoizerFacts.one_run_in_flight tr' Memoizer.idle);
      [reflexivity | discriminate].
  - unfold Memoizer.unsettled. destruct (Memoizer.in_flight s); lia.
Qed.

Lemma overlapping_calls_share_one_run_witness :
  let s0 := Memoizer.run Memoizer.idle [] in
  let s1 := Memoizer.run s0 (map Memoizer.Call [1; 2; 3]) in
  let s2 := Memoizer.step s1 (Memoizer.Settle false) in
  let s3 := Memoizer.step s2 (Memoizer.Call 4) in
  Memoizer.in_flight s0 = None
  /\ Memoizer.started s1 = 1
  /\ Memoizer.handed s1 = [(1, 1); (2, 1); (3, 1)]
  /\ Memoizer.in_flight s2 = None
  /\ Memoizer.started s3 = 2.
Proof.
  intros s0 s1 s2 s3.
  assert (H : Memoizer.in_flight s0 = None) by reflexivity.
  destruct (overlapping_calls_share_one_run [] 1 [2; 3] false 4 H)
    as ((H1 & _ & H2) & (_ & H3 & _ & _) & (H4 & _) & _).
  split; [exact H|]. split; [exact H1|]. split; [exact H2|].
  split; [exact H3 | exact H4].
Defined.

(** * Further properties of the engines *)

(** ** The walk, page by page *)

(** The walk over pages that each announce a next page goes on from the
    state it reached: the cursor of the last page, the items of all. *)
Lemma walk_chain_prefix v login (ps : list Page) :
  forall cursor s tail,
    Forall (fun p => p_hasNextPage p = true) ps ->
    walk v login cursor s (map answer ps ++ tail)
    = let '(r, l, rest) :=
        walk v login (chain_cursor cursor ps)
             (JsSet.add_all s (concat (map p_items ps))) tail in
      (r, chain_requests v login cursor ps ++ l, rest).
Proof.
  induction ps as [|p ps IH]; intros cursor s tail Hps.
  - cbn. now destruct (walk v login cursor s tail) as [[r l] rest].
  - inversion Hps as [|? ? Hp Hps']; subst.
    cbn [map app walk answer]. rewrite process_page_answer, Hp.
    change (map (fun p0 => Resolved (page_response p0)) ps)
      with (map answer ps).
    rewrite (IH (p_endCursor p) _ tail Hps').
    cbn [concat map chain_cursor fold_left chain_requests].
    rewrite <- add_all_app. fold (chain_cursor (p_endCursor p) ps).
    now destruct (walk v login _ _ tail) as [[r l] rest].
Qed.

Lemma chain_requests_length v login (ps : list Page) :
  forall cursor, length (chain_requests v login cursor ps) = length ps.
Proof.
  induction ps as [|p ps IH]; intros cursor; cbn; [reflexivity|].
  now rewrite IH.
Qed.

(** X1: the loop has no page limit.  While every answer announces a next
    page the walk asks for the next one; when the answers run out it is
    still waiting for the answer to one more request than it got answers,
    and has recorded nothing. *)
Theorem walk_waits_while_pages_go_on v login cursor s (ps : list Page) :
  Forall (fun p => p_hasNextPage p = true) ps ->
  exists log,
    walk v login cursor s (map answer ps) = (Pending, log, [])
    /\ log = chain_requests v login cursor ps
             ++ [page_request v login (chain_cursor cursor ps)]
    /\ length log = S (length ps).
Proof.
  intros Hps. eexists. split; [|split; [reflexivity|]].
  - rewrite <- (app_nil_r (map answer ps)).
    rewrite (walk_chain_prefix v login ps cursor s [] Hps). reflexivity.
  - rewrite length_app, chain_requests_length. cbn. lia.
Qed.

Lemma walk_waits_while_pages_go_on_witness :
  let ps := [Examples.page_of [mkObj 1 Examples.tool] (Some "c1") true;
             Examples.page_of [] (Some "c2") true] in
  Forall (fun p => p_hasNextPage p = true) ps
  /\ exists log,
       walk VUser "alice" None JsSet.empty (map answer ps) = (Pending, log, [])
       /\ log = chain_requests VUser "alice" None ps
                ++ [page_request VUser "alice" (chain_cursor None ps)]
       /\ length log = S (length ps).
Proof.
  intros ps.
  assert (H : Forall (fun p => p_hasNextPage p = true) ps)
    by (repeat constructor).
  split; [exact H|].
  exact (walk_waits_while_pages_go_on VUser "alice" None JsSet.empty ps H).
Defined.

(** X2: a page request that is rejected after any number of pages rejects
    the whole fetch with the error of the request: the items gathered so
    far are dropped, nothing is recorded for the account, and the accounts
    after it are not requested. *)
Theorem fetch_is_rejected_with_the_page_request
    v login others m w (ps : list Page) reason rest :
  Forall (fun p => p_hasNextPage p = true) ps ->
  graphqlQ w = map answer ps ++ Rejected reason :: rest ->
  fetch_accounts v (login :: others) m w
  = (Throw (HttpError reason),
     chain_requests v login None ps
     ++ [page_request v login (chain_cursor None ps)],
     {| graphqlQ := rest; gistsQ := gistsQ w; issuesQ := issuesQ w |}).
Proof.
  intros Hps Hq. cbn [fetch_accounts]. unfold bind at 1, walk_account.
  rewrite Hq, (walk_chain_prefix v login ps None JsSet.empty _ Hps).
  reflexivity.
Qed.

Lemma fetch_is_rejected_with_the_page_request_witness :
  let ps := [Examples.page_of [mkObj 1 Examples.tool] (Some "c1") true] in
  let w := {| graphqlQ := map answer ps ++ [Rejected "Error: 502"];
              gistsQ := []; issuesQ := [] |} in
  Forall (fun p => p_hasNextPage p = true) ps
  /\ graphqlQ w = map answer ps ++ Rejected "Error: 502" :: []
  /\ fetch_accounts VGist ("alice" :: ["bob"]) ∅ w
     = (Throw (HttpError "Error: 502"),
        chain_requests VGist "alice" None ps
        ++ [page_request VGist "alice" (chain_cursor None ps)],
        {| graphqlQ := []; gistsQ := gistsQ w; issuesQ := issuesQ w |}).
Proof.
  intros ps w.
  assert (H1 : Forall (fun p => p_hasNextPage p = true) ps)
    by (repeat constructor).
  assert (H2 : graphqlQ w = map answer ps ++ Rejected "Error: 502" :: [])
    by reflexivity.
  split; [exact H1 | split; [exact H2 |]].
  exact (fetch_is_rejected_with_the_page_request VGist "alice" ["bob"] ∅ w ps
           "Error: 502" [] H1 H2).
Defined.

(** X3: an answer whose [repositories] has no [pageInfo] is the last page
    of the walk in the users engines: its items are added, nothing is
    printed, and no further page is requested, whatever page it is.  The
    organisation engine has no default for [pageInfo] and raises. *)
Theorem missing_pageInfo_ends_the_walk
    v login cursor s (ps : list Page) items rest :
  Forall (fun p => p_hasNextPage p = true) ps ->
  walk v login cursor s
    (map answer ps
     ++ Resolved (connection_response
                    {| edges := Present items; pageInfo := Absent |}) :: rest)
  = match v with
    | VOrg =>
        (Throw TypeError,
         chain_requests v login cursor ps
         ++ [page_request v login (chain_cursor cursor ps)], rest)
    | _ =>
        (Ok (JsSet.add_all s (concat (map p_items ps) ++ items)),
         chain_requests v login cursor ps
         ++ [page_request v login (chain_cursor cursor ps)], rest)
    end.
Proof.
  intros Hps. rewrite (walk_chain_prefix v login ps cursor s _ Hps).
  rewrite <- add_all_app. destruct v; reflexivity.
Qed.

Lemma missing_pageInfo_ends_the_walk_witness :
  let ps := [Examples.page_of [mkObj 1 Examples.tool] (Some "c1") true] in
  Forall (fun p => p_hasNextPage p = true) ps
  /\ walk VUser "alice" None JsSet.empty
       (map answer ps
        ++ Resolved (connection_response
                       {| edges := Present [mkObj 2 Examples.tool];
                          pageInfo := Absent |}) :: [])
     = (Ok (JsSet.add_all JsSet.empty
              (concat (map p_items ps) ++ [mkObj 2 Examples.tool])),
        chain_requests VUser "alice" None ps
        ++ [page_request VUser "alice" (chain_cursor None ps)], []).
Proof.
  intros ps.
  assert (H : Forall (fun p => p_hasNextPage p = true) ps)
    by (repeat constructor).
  split; [exact H|].
  exact (missing_pageInfo_ends_the_walk VUser "alice" None JsSet.empty ps
           [mkObj 2 Examples.tool] [] H).
Defined.

(** X4: the walk makes one page request per answer it uses; the answers
    it leaves are the tail of those it was given, and only a walk still
    waiting has made one request more. *)
Theorem walk_requests_one_page_per_answer v login (q : list (Outcome GqlResponse)) :
  forall cursor s,
    exists used,
      q = used ++ (walk v login cursor s q).2
      /\ count_page_requests (walk v login cursor s q).1.2
         = length used
           + match (walk v login cursor s q).1.1 with
             | Pending => 1
             | _ => 0
             end.
Proof.
  induction q as [|o q IH]; intros cursor s.
  - exists []. split; reflexivity.
  - cbn [walk]. destruct o as [r|reason].
    + destruct (process_page v login s r) as [s' l|s' c|e] eqn:E.
      * exists [Resolved r]. split; [reflexivity|].
        assert (Hl : l = [] \/ l = [warn_not_found v login]).
        { revert E. unfold process_page, process_connection.
          repeat case_match; intros [= _ <-]; auto. }
        destruct Hl as [-> | ->]; [reflexivity|].
        destruct v; reflexivity.
      * destruct (IH c s') as (used & Hq & Hc).
        destruct (walk v login c s' q) as [[r' l'] rest]. cbn in *.
        exists (Resolved r :: used). split; [now rewrite Hq at 1|].
        unfold count_page_requests in *. cbn. now rewrite Hc.
      * exists [Resolved r]. split; reflexivity.
    + exists [Rejected reason]. split; reflexivity.
Qed.

(** ** What the fetch records *)

Lemma bind_ok {A B} (m : M A) (k : A -> M B) w b l w' :
  bind m k w = (Ok b, l, w') ->
  exists a l1 w1 l2,
    m w = (Ok a, l1, w1) /\ k a w1 = (Ok b, l2, w') /\ l = l1 ++ l2.
Proof.
  unfold bind. destruct (m w) as [[[a|e|] l1] w1]; try discriminate.
  destruct (k a w1) as [[r l2] w2] eqn:E. intros [= -> <- <-].
  now exists a, l1, w1, l2.
Qed.

Lemma add_distinct {A} (s : JsSet.t A) (o : Obj A) :
  distinct_members s -> distinct_members (JsSet.add s o).
Proof.
  unfold distinct_members, JsSet.add. intros Hs. rewrite has_existsb.
  destruct (existsb _ (map oid s)) eqn:E; [exact Hs|].
  apply (Permutation_NoDup (l := oid o :: map oid s)).
  - rewrite map_app. apply Permutation_cons_append.
  - constructor; [|exact Hs]. intros Hin.
    apply (proj2 (existsb_eqb_In _ _)) in Hin. congruence.
Qed.

Lemma add_all_distinct_members {A} (xs : list (Obj A)) :
  forall s, distinct_members s -> distinct_members (JsSet.add_all s xs).
Proof.
  unfold JsSet.add_all.
  induction xs as [|x t IH]; intros s Hs; [exact Hs|].
  cbn. apply IH. now apply add_distinct.
Qed.

Lemma process_page_distinct v login s r :
  distinct_members s ->
  match process_page v login s r with
  | Stop s' _ | Next s' _ => distinct_members s'
  | Raise _ => True
  end.
Proof.
  intros Hs. unfold process_page, process_connection.
  destruct (r_data r) as [b|]; [|exact Hs].
  destruct (data b) as [d|]; [|exact Hs].
  destruct (owner d) as [o|]; [|exact Hs].
  destruct (repositories o) as [c|], v; try exact Hs; try exact I;
    (destruct (edges_of _ c); [|exact I];
     destruct (pageInfo_of _ c) as [p|]; [|exact I];
     destruct (hasNextPage p); now apply add_all_distinct_members).
Qed.

Lemma walk_distinct v login (q : list (Outcome GqlResponse)) :
  forall cursor s,
    distinct_members s ->
    match (walk v login cursor s q).1.1 with
    | Ok s' => distinct_members s'
    | _ => True
    end.
Proof.
  induction q as [|o q IH]; intros cursor s Hs; [exact I|].
  cbn [walk]. destruct o as [r|reason]; [|exact I].
  pose proof (process_page_distinct v login s r Hs) as Hp.
  destruct (process_page v login s r) as [s' l|s' c|e]; try exact Hp.
  specialize (IH c s' Hp).
  now destruct (walk v login c s' q) as [[r' l'] rest].
Qed.

Lemma walk_account_distinct v login w s l w' :
  walk_account v login w = (Ok s, l, w') -> distinct_members s.
Proof.
  unfold walk_account.
  pose proof (walk_distinct v login (graphqlQ w) None JsSet.empty) as H.
  destruct (walk v login None JsSet.empty (graphqlQ w)) as [[r l0] q].
  intros [= -> _ _]. apply H. constructor.
Qed.

Lemma fetch_gists_distinct login w s l w' :
  fetch_gists login w = (Ok s, l, w') -> distinct_members s.
Proof.
  unfold fetch_gists.
  destruct (gistsQ w) as [|[[gs|err]|reason] q]; intros [= <- _ _];
    try constructor.
  apply add_all_distinct_members. constructor.
Qed.

(** What the map holds after a fulfilled fetch: for a fetched account, a
    record made of a walk and, in the gist engine, a gist fetch; for any
    other key, what it held before. *)
Lemma fetch_accounts_entries v (us : list string) :
  forall m w m' l w',
    fetch_accounts v us m w = (Ok m', l, w') ->
    (forall u, In u us ->
       exists d, m' !! u = Some d
                 /\ distinct_members (repos d) /\ distinct_members (gists d))
    /\ (forall u, ~ In u us -> m' !! u = m !! u).
Proof.
  induction us as [|user rest IH]; intros m w m' l w' Hf.
  - cbn in Hf. injection Hf as <- _ _. split; [intros u []|reflexivity].
  - cbn [fetch_accounts] in Hf.
    apply bind_ok in Hf as (rs & l1 & w1 & l2 & Hw & Hf & _).
    apply bind_ok in Hf as (gs & l3 & w2 & l4 & Hg & Hf & _).
    destruct (IH _ _ _ _ _ Hf) as [Hin Hout].
    assert (Hgs : distinct_members gs).
    { destruct v; try (injection Hg as <- _ _; constructor);
        now apply fetch_gists_distinct in Hg. }
    split.
    + intros u Hu. destruct (in_dec Stdlib.Strings.String.string_dec u rest) as [Hr|Hr].
      * now apply Hin.
      * destruct Hu as [->|Hu]; [|contradiction].
        rewrite (Hout u Hr), lookup_insert_eq. eexists. split; [reflexivity|].
        split; [now apply walk_account_distinct in Hw | exact Hgs].
    + intros u Hu. rewrite Hout by (intros H; apply Hu; now right).
      apply lookup_insert_ne. intros ->. apply Hu. now left.
Qed.

(** X6: in every set a fulfilled fetch records, of repositories and of
    gists, the members are pairwise distinct objects: the same object
    returned twice is held once. *)
Theorem fetch_records_distinct_objects v (usernames : list string) w :
  match res_of (getRepos_body v usernames w) with
  | Ok m =>
      forall u d, m !! u = Some d ->
                  distinct_members (repos d) /\ distinct_members (gists d)
  | _ => True
  end.
Proof.
  unfold getRepos_body, res_of.
  destruct (fetch_accounts v usernames ∅ w) as [[[m|e|] l] w'] eqn:E;
    try exact I.
  destruct (fetch_accounts_entries v usernames _ _ _ _ _ E) as [Hin Hout].
  intros u d Hd. destruct (in_dec Stdlib.Strings.String.string_dec u usernames) as [Hu|Hu].
  - destruct (Hin u Hu) as (d' & Hd' & H1 & H2).
    rewrite Hd in Hd'. injection Hd' as <-. now split.
  - rewrite (Hout u Hu), lookup_empty in Hd. discriminate.
Qed.

(** ** Requests of [search] *)

Lemma count_live_app (l1 l2 : list Event) :
  count_live_requests (l1 ++ l2)
  = count_live_requests l1 + count_live_requests l2.
Proof.
  unfold count_live_requests. now rewrite List.filter_app, length_app.
Qed.

Lemma count_live_cons (e : Event) (l : list Event) :
  count_live_requests (e :: l)
  = (if is_live_request e then 1 else 0) + count_live_requests l.
Proof. unfold count_live_requests. cbn. now destruct (is_live_request e). Qed.

Lemma quiet_ret {A} (a : A) : Quiet (ret a).
Proof. intros w. split; reflexivity. Qed.

Lemma quiet_bind {A B} (m : M A) (k : A -> M B) :
  Quiet m -> (forall a, Quiet (k a)) -> Quiet (bind m k).
Proof.
  intros Hm Hk w. specialize (Hm w). unfold bind.
  destruct (m w) as [[[a|e|] l] w1]; cbn [fst snd] in Hm |- *; try exact Hm.
  specialize (Hk a w1). destruct (k a w1) as [[r l'] w2].
  cbn [fst snd] in Hk |- *.
  rewrite count_live_app. destruct Hm as [-> <-], Hk as [-> ->].
  split; reflexivity.
Qed.

Lemma process_page_log v login s r s' l :
  process_page v login s r = Stop s' l ->
  count_live_requests l = 0.
Proof.
  unfold process_page, process_connection.
  destruct (r_data r) as [b|]; [|intros [= _ <-]; now destruct v].
  destruct (data b) as [d|]; [|intros [= _ <-]; now destruct v].
  destruct (owner d) as [o|]; [|intros [= _ <-]; now destruct v].
  destruct (repositories o) as [c|], v; try discriminate;
    try (intros [= _ <-]; reflexivity);
    (destruct (edges_of _ c); [|discriminate];
     destruct (pageInfo_of _ c) as [p|]; [|discriminate];
     destruct (hasNextPage p); [discriminate|]; intros [= _ <-];
     reflexivity).
Qed.

Lemma walk_quiet v login (q : list (Outcome GqlResponse)) :
  forall cursor s, count_live_requests (walk v login cursor s q).1.2 = 0.
Proof.
  induction q as [|o q IH]; intros cursor s; [reflexivity|].
  cbn [walk]. destruct o as [r|reason]; [|reflexivity].
  destruct (process_page v login s r) as [s' l|s' c|e] eqn:E.
  - cbn [fst snd]. rewrite count_live_cons.
    now rewrite (process_page_log _ _ _ _ _ _ E).
  - specialize (IH c s'). destruct (walk v login c s' q) as [[r' l'] rest].
    cbn [fst snd] in IH |- *. now rewrite count_live_cons, IH.
  - reflexivity.
Qed.

Lemma quiet_walk_account v login : Quiet (walk_account v login).
Proof.
  intros w. unfold walk_account.
  pose proof (walk_quiet v login (graphqlQ w) None JsSet.empty) as H.
  destruct (walk v login None JsSet.empty (graphqlQ w)) as [[r l] q].
  split; [exact H | reflexivity].
Qed.

Lemma quiet_fetch_gists login : Quiet (fetch_gists login).
Proof.
  intros w. unfold fetch_gists.
  destruct (gistsQ w) as [|[[gs|err]|reason] q]; split; reflexivity.
Qed.

Lemma quiet_fetch_accounts v (us : list string) :
  forall m, Quiet (fetch_accounts v us m).
Proof.
  induction us as [|user rest IH]; intros m; cbn [fetch_accounts].
  - apply quiet_ret.
  - apply quiet_bind; [apply quiet_walk_account|]. intros rs.
    apply quiet_bind; [|intros gs; apply IH].
    destruct v; first [apply quiet_ret | apply quiet_fetch_gists].
Qed.

Section LiveRequests.
Context {U : Util}.

Lemma collection_skip_is_warning v data login q e :
  collection v data login q = Skip e -> is_live_request e = false.
Proof.
  unfold collection. destruct v.
  - destruct (_ =? 0); [|discriminate]. now intros [= <-].
  - discriminate.
  - destruct (data !! login) as [d|]; [|now intros [= <-]].
    destruct (_ && _); [|discriminate]. now intros [= <-].
Qed.

(** One round of the live search: one request, and one answer used
    unless none is left. *)
Lemma live_search_one_request v login q w :
  count_live_requests (live_search v login q w).1.2 = 1
  /\ match (live_search v login q w).1.1 with
     | Ok _ => length (issuesQ w) = S (length (issuesQ (live_search v login q w).2))
     | _ => True
     end.
Proof.
  unfold live_search.
  destruct (issuesQ w) as [|[[items|err]|reason] iq]; cbn [fst snd];
    rewrite ?count_live_cons; (split; [|try exact I; try reflexivity]);
    try reflexivity; destruct v; reflexivity.
Qed.

(** One round of the loop of [search], spelled out. *)
Lemma search_loop_cons v g q user rest results w :
  search_loop v g q (user :: rest) results w
  = match g w with
    | (Ok data, l0, w1) =>
        match collection v data user q with
        | Skip e =>
            let '(r, l, w') := search_loop v g q rest results w1 in
            (r, l0 ++ e :: l, w')
        | Push rs =>
            match live_search v user q w1 with
            | (Ok hits, l1, w2) =>
                let '(r, l, w') :=
                  search_loop v g q rest (results ++ rs ++ hits) w2 in
                (r, l0 ++ l1 ++ l, w')
            | (Throw e, l1, w2) => (Throw e, l0 ++ l1, w2)
            | (Pending, l1, w2) => (Pending, l0 ++ l1, w2)
            end
        end
    | (Throw e, l0, w1) => (Throw e, l0, w1)
    | (Pending, l0, w1) => (Pending, l0, w1)
    end.
Proof.
  cbn [search_loop]. unfold bind at 1.
  destruct (g w) as [[[data|e|] l0] w1]; try reflexivity.
  destruct (collection v data user q) as [e|rs].
  - unfold bind, emit.
    now destruct (search_loop v g q rest results w1) as [[r l] w'].
  - unfold bind.
    destruct (live_search v user q w1) as [[[hits|e|] l1] w2];
      try reflexivity.
    now destruct (search_loop v g q rest _ w2) as [[r l] w'].
Qed.

Lemma search_loop_live_requests v g q (us : list string) :
  Quiet g ->
  forall results w,
    count_live_requests (search_loop v g q us results w).1.2 <= length us
    /\ match (search_loop v g q us results w).1.1 with
       | Ok _ =>
           length (issuesQ w)
           = count_live_requests (search_loop v g q us results w).1.2
             + length (issuesQ (search_loop v g q us results w).2)
           /\ (v = VOrg ->
               count_live_requests (search_loop v g q us results w).1.2
               = length us)
       | _ => True
       end.
Proof.
  intros Hg. induction us as [|user rest IH]; intros results w.
  - cbn. split; [lia | split; reflexivity].
  - rewrite search_loop_cons. destruct (Hg w) as [Hl0 Hq0].
    destruct (g w) as [[[data|e|] l0] w1]; cbn [fst snd length] in Hl0, Hq0 |- *;
      [| rewrite Hl0; split; [lia | exact I]..].
    destruct (collection v data user q) as [w0|rs] eqn:Hc.
    + specialize (IH results w1).
      destruct (search_loop v g q rest results w1) as [[r l] w2].
      cbn [fst snd length] in IH |- *.
      rewrite count_live_app, Hl0, <- Hq0.
      rewrite count_live_cons, (collection_skip_is_warning _ _ _ _ _ Hc).
      destruct IH as [IH1 IH2]. split; [lia|].
      destruct r as [rs'|e|]; try exact I.
      destruct IH2 as [IH2 IH3]. split; [exact IH2|].
      intros ->. discriminate Hc.
    + destruct (live_search_one_request v user q w1) as [H1 H2].
      destruct (live_search v user q w1) as [[[hits|e|] l1] w2];
        cbn [fst snd length] in H1, H2 |- *;
        [| rewrite count_live_app, Hl0, H1; split; [lia | exact I]..].
      specialize (IH (results ++ rs ++ hits) w2).
      destruct (search_loop v g q rest (results ++ rs ++ hits) w2)
        as [[r l] w3].
      cbn [fst snd] in IH |- *.
      rewrite !count_live_app, Hl0, H1, <- Hq0, H2.
      destruct IH as [IH1 IH2]. split; [lia|].
      destruct r as [rs'|e|]; try exact I.
      destruct IH2 as [IH2 IH3]. split; [lia|].
      intros Hv. rewrite (IH3 Hv). reflexivity.
Qed.

(** X7: [search] of an initialised engine makes at most one live search
    request per account, and the fetch makes none.  When it returns, it
    has used exactly one answer of the issue endpoint per request; the
    organisation engine has then made exactly one request per account. *)
Theorem search_makes_one_live_request_per_account
    v usernames origin token q w :
  let run := search v (init v usernames origin token) q w in
  count_live_requests run.1.2 <= length usernames
  /\ match run.1.1 with
     | Ok _ =>
         length (issuesQ w)
         = count_live_requests run.1.2 + length (issuesQ run.2)
         /\ (v = VOrg -> count_live_requests run.1.2 = length usernames)
     | _ => True
     end.
Proof.
  unfold search, init. cbn [client getRepos users].
  apply search_loop_live_requests.
  unfold rateLimit, getRepos_body. apply quiet_fetch_accounts.
Qed.

End LiveRequests.

(** ** Results of [search] *)

Section SearchResults.
Context {U : Util}.

Lemma search_loop_app v g q (us1 us2 : list string) :
  forall results w,
    search_loop v g q (us1 ++ us2) results w
    = (let* rs := search_loop v g q us1 results in
       search_loop v g q us2 rs) w.
Proof.
  induction us1 as [|user us1 IH]; intros results w.
  - cbn [app search_loop]. unfold bind, ret.
    now destruct (search_loop v g q us2 results w) as [[r l] w'].
  - cbn [app]. unfold bind. rewrite !search_loop_cons.
    destruct (g w) as [[[data|e|] l0] w1]; try reflexivity.
    destruct (collection v data user q) as [e|rs].
    + rewrite IH. unfold bind.
      destruct (search_loop v g q us1 results w1) as [[[r|e'|] l] w2];
        try reflexivity.
      destruct (search_loop v g q us2 r w2) as [[r' l'] w3].
      now rewrite <- app_assoc.
    + destruct (live_search v user q w1) as [[[hits|e|] l1] w2];
        try reflexivity.
      rewrite IH. unfold bind.
      destruct (search_loop v g q us1 _ w2) as [[[r|e'|] l] w3];
        try reflexivity.
      destruct (search_loop v g q us2 r w3) as [[r' l'] w4].
      now rewrite <- !app_assoc.
Qed.

Lemma search_loop_extends v g q (us : list string) :
  forall results w,
    match (search_loop v g q us results w).1.1 with
    | Ok rs => exists more, rs = results ++ more
    | _ => True
    end.
Proof.
  induction us as [|user rest IH]; intros results w.
  - exists []. cbn. now rewrite app_nil_r.
  - rewrite search_loop_cons.
    destruct (g w) as [[[data|e|] l0] w1]; try exact I.
    destruct (collection v data user q) as [e|rs].
    + specialize (IH results w1).
      now destruct (search_loop v g q rest results w1) as [[r l] w'].
    + destruct (live_search v user q w1) as [[[hits|e|] l1] w2];
        try exact I.
      specialize (IH (results ++ rs ++ hits) w2).
      destruct (search_loop v g q rest _ w2) as [[[r|e|] l] w'];
        try exact I.
      cbn in IH |- *. destruct IH as [more ->].
      exists ((rs ++ hits) ++ more). now rewrite !app_assoc.
Qed.

(** X8: the accounts are served in the order of the list.  The loop of
    [search] over [us1 ++ us2] is the loop over [us1] followed by the loop
    over [us2] on the results so far, with the same requests and the same
    answers used; and the results returned start with the results the
    loop began with, so what earlier accounts gave stays in front,
    unchanged. *)
Theorem search_serves_accounts_in_order v g q (us1 us2 : list string) results w :
  search_loop v g q (us1 ++ us2) results w
  = (let* rs := search_loop v g q us1 results in
     search_loop v g q us2 rs) w
  /\ match (search_loop v g q (us1 ++ us2) results w).1.1 with
     | Ok rs => exists more, rs = results ++ more
     | _ => True
     end.
Proof.
  split; [apply search_loop_app | apply search_loop_extends].
Qed.

(** X19: a failed live search costs the hits of that account and nothing
    else: the repository and gist results of the account are pushed, the
    failure is logged (not at all in the organisation engine), and the
    loop goes on with the next account. *)
Theorem failed_live_search_is_isolated
    v g q user rest results w data l0 w1 rs failure iq :
  g w = (Ok data, l0, w1) ->
  collection v data user q = Push rs ->
  issuesQ w1 = failure :: iq ->
  (forall items, failure <> Resolved (Wellformed items)) ->
  search_loop v g q (user :: rest) results w
  = let '(r, l, w') :=
      search_loop v g q rest (results ++ rs)
        {| graphqlQ := graphqlQ w1; gistsQ := gistsQ w1; issuesQ := iq |} in
    (r,
     l0 ++ (Get "/search/issues"
              [("per_page", "100"); ("q", liveQuery v user q)]
            :: on_live_error v (failure_text failure)) ++ l,
     w').
Proof.
  intros Hg Hc Hq Hf. rewrite search_loop_cons, Hg, Hc.
  unfold live_search. rewrite Hq.
  destruct failure as [[items|err]|reason]; [now destruct (Hf items)| |];
    cbn [failure_text]; rewrite app_nil_r; reflexivity.
Qed.



End SearchResults.

(** ** Gist results *)

Section GistResults.
Context {U : Util}.

Lemma keep_gist_spec q (g : Obj Gist) :
  keep_gist q g = true
  <-> exists d, g_description (oval g) = Some d /\ d <> EmptyString
                /\ fuzzyIncludes (Some d) q = true.
Proof.
  unfold keep_gist, Str.truthy_opt, Str.truthy.
  destruct (g_description (oval g)) as [d|]; cbn.
  - destruct (String.eqb_spec d EmptyString) as [->|Hd]; cbn.
    + split; [discriminate|]. intros (d & [= <-] & Hd & _). congruence.
    + split; [intros Hf; now exists d|]. now intros (d' & [= <-] & _ & Hf).
  - split; [discriminate|]. now intros (d & Hd & _).
Qed.

(** X10: the gist results of an account come from exactly the gists of
    the cached set whose description is a non-empty string that the fuzzy
    match accepts, each once, in ascending order of [updated_at]; a gist
    becomes the result titled "Gist account/id" with the gist's own URL,
    and its snippet is its description. *)
Theorem gistResults_spec login q (s : JsSet.t Gist) :
  exists kept,
    gistResults login q s = map (gistResult login) kept
    /\ Permutation kept (List.filter (keep_gist q) s)
    /\ StronglySorted updated_le kept
    /\ (forall g,
          In g kept
          <-> In g s
              /\ exists d, g_description (oval g) = Some d
                           /\ d <> EmptyString
                           /\ fuzzyIncludes (Some d) q = true)
    /\ (forall g,
          In g kept ->
          title (gistResult login g) = "Gist " +:+ login +:+ "/" +:+ g_id (oval g)
          /\ url (gistResult login g) = g_html_url (oval g)
          /\ snippet (gistResult login g) = g_description (oval g)).
Proof.
  exists (js_sort by_updated_at (List.filter (keep_gist q) s)).
  assert (Hperm : Permutation
                    (js_sort by_updated_at (List.filter (keep_gist q) s))
                    (List.filter (keep_gist q) s))
    by apply js_sort_perm.
  assert (Hmem : forall g,
            In g (js_sort by_updated_at (List.filter (keep_gist q) s))
            <-> In g s /\ keep_gist q g = true).
  { intros g. rewrite <- filter_In. split; intros Hg.
    - eapply Permutation_in; [exact Hperm | exact Hg].
    - eapply Permutation_in; [symmetry; exact Hperm | exact Hg]. }
  split; [reflexivity|]. split; [exact Hperm|]. split; [|split].
  - apply Sorted_StronglySorted.
    + intros a b c Hab Hbc. unfold updated_le in *.
      now transitivity (g_updated_at (oval b)).
    + apply js_sort_sorted; intros x y; unfold by_updated_at, updated_le.
      * destruct (Str.gtb _ _) eqn:E; [lia|]. intros _. now apply gtb_false_le.
      * destruct (Str.gtb _ _) eqn:E; [|lia]. intros _. now apply gtb_true_le.
  - intros g. rewrite Hmem, keep_gist_spec. reflexivity.
  - intros g Hg. apply Hmem in Hg as [_ Hk].
    split; [reflexivity|]. split; [reflexivity|].
    unfold gistResult, or_undefined. cbn [snippet].
    unfold keep_gist in Hk. apply andb_true_iff in Hk as [-> _]. reflexivity.
Qed.

End GistResults.

(** ** The repository of an issue *)

Module OwnerRepoFacts.

Import Str Pattern.

Lemma all_chars_append f (a b : string) :
  all_chars f (a +:+ b) = all_chars f a && all_chars f b.
Proof.
  induction a as [|c a IH]; [reflexivity|].
  rewrite ShortcodeFacts.append_cons. cbn. now rewrite IH, andb_assoc.
Qed.

Lemma owner_repo_here_match owner repo rest :
  owner <> EmptyString -> repo <> EmptyString ->
  slash_free owner = true -> slash_free repo = true ->
  head_fails (fun c => negb (is_slash c)) rest ->
  Regex.owner_repo_here ("github.com/" +:+ owner +:+ "/" +:+ repo +:+ rest)
  = Some (owner +:+ "/" +:+ repo).
Proof.
  intros Ho Hr Hso Hsr Hrest. unfold Regex.owner_repo_here.
  assert (E : strip_prefix "github.com/"
                ("github.com/" +:+ owner +:+ "/" +:+ repo +:+ rest)
              = Some (owner +:+ "/" +:+ repo +:+ rest))
    by now apply strip_prefix_spec.
  rewrite E.
  rewrite (ShortcodeFacts.span_append _ owner); [|exact Hso|reflexivity].
  destruct owner as [|c owner]; [contradiction|].
  change ("/" +:+ repo +:+ rest) with (String "/" (repo +:+ rest)).
  cbn match.
  rewrite (ShortcodeFacts.span_append _ repo); [|exact Hsr|exact Hrest].
  destruct repo as [|c' repo]; [contradiction|]. reflexivity.
Qed.

(** What the pattern captures is a pair of non-empty names without
    slashes that follows [github.com/] in the URL. *)
Lemma owner_repo_here_sound s x :
  Regex.owner_repo_here s = Some x ->
  exists a b post,
    s = "github.com/" +:+ a +:+ "/" +:+ b +:+ post
    /\ x = a +:+ "/" +:+ b
    /\ a <> EmptyString /\ b <> EmptyString
    /\ slash_free a = true /\ slash_free b = true.
Proof.
  unfold Regex.owner_repo_here.
  destruct (strip_prefix "github.com/" s) as [rest|] eqn:E; [|discriminate].
  apply strip_prefix_spec in E as ->.
  destruct (Regex.span _ rest) as [a r1] eqn:E1.
  destruct a as [|ca a]; [discriminate|].
  destruct r1 as [|c1 r2]; [discriminate|].
  destruct (Regex.span _ r2) as [b post] eqn:E2.
  destruct b as [|cb b]; [discriminate|]. intros [= <-].
  apply ShortcodeFacts.span_spec in E1 as (-> & Ha & Hc1).
  apply ShortcodeFacts.span_spec in E2 as (-> & Hb & _).
  cbn in Hc1. apply negb_false_iff in Hc1.
  unfold is_slash in Hc1. apply Nat.eqb_eq in Hc1.
  assert (c1 = "/"%char) as ->
    by (rewrite <- (ascii_nat_embedding c1), Hc1; reflexivity).
  exists (String ca a), (String cb b), post.
  repeat split; try discriminate; try assumption.
Qed.

End OwnerRepoFacts.

Section LiveResults.
Context {U : Util}.

(** X11: for a hit whose URL is [https://github.com/owner/repo] followed
    by nothing or by a path, the title of the result is "PR in
    owner/repo: title" when the hit has a [pull_request] and "Issue in
    owner/repo: title" otherwise, and the URL of the result is the URL of
    the hit. *)
Theorem liveResult_names_the_repository item owner repo rest :
  owner <> EmptyString -> repo <> EmptyString ->
  slash_free owner = true -> slash_free repo = true ->
  Pattern.head_fails (fun c => negb (Str.is_slash c)) rest ->
  h_html_url item
  = "https://github.com/" +:+ owner +:+ "/" +:+ repo +:+ rest ->
  title (liveResult item)
  = (if h_pull_request item then "PR" else "Issue") +:+ " in "
    +:+ owner +:+ "/" +:+ repo +:+ ": " +:+ h_title item
  /\ url (liveResult item) = h_html_url item.
Proof.
  intros Ho Hr Hso Hsr Hrest Hurl. split; [|reflexivity].
  unfold liveResult. cbn [title]. rewrite Hurl.
  assert (E : Regex.owner_repo
                ("https://github.com/" +:+ owner +:+ "/" +:+ repo +:+ rest)
              = Some (owner +:+ "/" +:+ repo)).
  { change ("https://github.com/" +:+ owner +:+ "/" +:+ repo +:+ rest)
      with ("https://" +:+ "github.com/" +:+ owner +:+ "/" +:+ repo +:+ rest).
    pose proof (OwnerRepoFacts.owner_repo_here_match owner repo rest
                  Ho Hr Hso Hsr Hrest) as Hm.
    cbv [String.append] in Hm |- *. fold String.append in Hm |- *.
    cbn [Regex.owner_repo]. 
    repeat (match goal with
            | |- context [Regex.owner_repo_here (String ?c ?s)] =>
                lazymatch c with
                | "g"%char => fail
                | _ => change (Regex.owner_repo_here (String c s))
                         with (@None string)
                end
            end; cbn match).
    now rewrite Hm. }
  rewrite E. cbn [default from_option]. unfold id. now rewrite !append_assoc.
Qed.

(** X12: when the title of a live result names a repository, the name is
    a pair [owner/repo] of non-empty names without slashes that stands
    after [github.com/] in the URL of the hit; a URL without
    [github.com/owner/repo] gives the title "... in undefined: ...". *)
Theorem liveResult_repository_comes_from_the_url item :
  match Regex.owner_repo (h_html_url item) with
  | Some x =>
      exists pre a b post,
        h_html_url item = pre +:+ "github.com/" +:+ a +:+ "/" +:+ b +:+ post
        /\ x = a +:+ "/" +:+ b
        /\ a <> EmptyString /\ b <> EmptyString
        /\ slash_free a = true /\ slash_free b = true
  | None =>
      title (liveResult item)
      = (if h_pull_request item then "PR" else "Issue") +:+ " in "
        +:+ "undefined" +:+ ": " +:+ h_title item
  end.
Proof.
  destruct (Regex.owner_repo (h_html_url item)) as [x|] eqn:E.
  - clear -E. revert E. generalize (h_html_url item) as s.
    induction s as [|c s IH]; cbn [Regex.owner_repo].
    + destruct (Regex.owner_repo_here EmptyString) eqn:E; [|discriminate].
      intros [= <-].
      apply OwnerRepoFacts.owner_repo_here_sound in E
        as (a & b & post & E & Hx & H).
      now exists EmptyString, a, b, post.
    + destruct (Regex.owner_repo_here (String c s)) eqn:E.
      * intros [= <-].
        apply OwnerRepoFacts.owner_repo_here_sound in E
          as (a & b & post & E & Hx & H).
        exists EmptyString, a, b, post. now rewrite E.
      * intros Hs. destruct (IH Hs) as (pre & a & b & post & -> & H).
        now exists (String c pre), a, b, post.
  - unfold liveResult. cbn [title]. now rewrite E.
Qed.

End LiveResults.

Lemma liveResult_names_the_repository_witness :
  "alice" <> EmptyString /\ "tool-x" <> EmptyString
  /\ slash_free "alice" = true /\ slash_free "tool-x" = true
  /\ Pattern.head_fails (fun c => negb (Str.is_slash c)) "/issues/1"
  /\ h_html_url Examples.issue
     = "https://github.com/" +:+ "alice" +:+ "/" +:+ "tool-x" +:+ "/issues/1"
  /\ title (liveResult (U := Examples.plainUtil) Examples.issue)
     = (if h_pull_request Examples.issue then "PR" else "Issue") +:+ " in "
       +:+ "alice" +:+ "/" +:+ "tool-x" +:+ ": " +:+ h_title Examples.issue
  /\ url (liveResult (U := Examples.plainUtil) Examples.issue)
     = h_html_url Examples.issue.
Proof.
  assert (H1 : "alice" <> EmptyString) by discriminate.
  assert (H2 : "tool-x" <> EmptyString) by discriminate.
  assert (H3 : slash_free "alice" = true) by reflexivity.
  assert (H4 : slash_free "tool-x" = true) by reflexivity.
  assert (H5 : Pattern.head_fails (fun c => negb (Str.is_slash c)) "/issues/1")
    by reflexivity.
  assert (H6 : h_html_url Examples.issue
               = "https://github.com/" +:+ "alice" +:+ "/" +:+ "tool-x"
                 +:+ "/issues/1") by reflexivity.
  repeat (split; [assumption|]).
  exact (liveResult_names_the_repository (U := Examples.plainUtil)
           Examples.issue "alice" "tool-x" "/issues/1" H1 H2 H3 H4 H5 H6).
Defined.

(** ** Plain descriptions and plain queries *)

Module ColonFacts.

Import Str Pattern.

Lemma colon_free_no_shortcode s :
  colon_free s = true -> Regex.shortcode_here s = None.
Proof.
  intros Hs. unfold Regex.shortcode_here.
  destruct (Regex.span is_space s) as [sp r1] eqn:E.
  apply ShortcodeFacts.span_spec in E as (-> & _ & _).
  unfold colon_free in Hs. rewrite OwnerRepoFacts.all_chars_append in Hs.
  apply andb_true_iff in Hs as [_ Hs].
  destruct r1 as [|c1 r2]; [reflexivity|].
  cbn in Hs. apply andb_true_iff in Hs as [Hc _].
  apply negb_true_iff in Hc. now rewrite Hc.
Qed.

(** The replacement leaves a string without colon as it is. *)
Lemma colon_free_unchanged (s : string) :
  colon_free s = true -> Regex.strip_shortcodes s = s.
Proof.
  unfold Regex.strip_shortcodes.
  induction s as [|c s IH]; intros Hs; [reflexivity|].
  cbn [Regex.strip_from]. rewrite (colon_free_no_shortcode _ Hs).
  unfold colon_free in Hs. cbn in Hs. apply andb_true_iff in Hs as [_ Hs].
  now rewrite (IH Hs).
Qed.

(** A string that holds a qualifier token holds a colon. *)
Lemma token_has_colon kws q : HasToken kws q -> colon_free q = false.
Proof.
  intros (pre & kw & c & post & _ & -> & _ & _). unfold colon_free.
  rewrite !OwnerRepoFacts.all_chars_append. cbn.
  now rewrite !andb_false_r.
Qed.

End ColonFacts.

(** X13: a repository whose description is a non-empty string without a
    colon has that description, unchanged, as the snippet of its
    result. *)
Theorem plain_description_is_the_snippet login (r : Obj Repo) d :
  description (oval r) = Some d ->
  d <> EmptyString ->
  colon_free d = true ->
  snippet (repoResult login r) = Some d.
Proof.
  intros Hd Hne Hc. unfold repoResult. cbn [snippet]. rewrite Hd. cbn.
  rewrite (ColonFacts.colon_free_unchanged d Hc).
  unfold or_undefined, Str.truthy_opt, Str.truthy.
  now destruct (String.eqb_spec d EmptyString).
Qed.

Lemma plain_description_is_the_snippet_witness :
  description (oval (mkObj 1 Examples.tool)) = Some "a CLI tool"
  /\ "a CLI tool" <> EmptyString
  /\ colon_free "a CLI tool" = true
  /\ snippet (repoResult "alice" (mkObj 1 Examples.tool)) = Some "a CLI tool".
Proof.
  assert (H1 : description (oval (mkObj 1 Examples.tool)) = Some "a CLI tool")
    by reflexivity.
  assert (H2 : "a CLI tool" <> EmptyString) by discriminate.
  assert (H3 : colon_free "a CLI tool" = true) by reflexivity.
  split; [exact H1 | split; [exact H2 | split; [exact H3 |]]].
  exact (plain_description_is_the_snippet "alice" (mkObj 1 Examples.tool)
           "a CLI tool" H1 H2 H3).
Defined.

Section PlainQueries.
Context {U : Util}.

(** X14: a raw query without a colon is never taken for a qualified one:
    in every engine it is sent between double quotes, escaped by
    [escapeQuotes], after the scope of the account. *)
Theorem plain_query_is_quoted v login q :
  colon_free q = true ->
  liveQuery v login q
  = scope_keyword v +:+ ":" +:+ login +:+ " "
    +:+ Str.dq +:+ escapeQuotes q +:+ Str.dq.
Proof.
  intros Hq. unfold liveQuery.
  destruct (Regex.test (qualifiers v) q) eqn:E; [|reflexivity].
  apply test_spec, ColonFacts.token_has_colon in E. congruence.
Qed.

(** X15: whatever the raw query, the query of the live search holds a
    scope token ([user:], in the organisation engine [org:]) when the
    account name starts with a letter, a digit or an underscore: no live
    search is sent without a scope. *)
Theorem liveQuery_is_always_scoped v c login q :
  Str.is_word c = true ->
  Pattern.HasToken [scope_keyword v] (liveQuery v (String c login) q).
Proof.
  intros Hc. unfold liveQuery.
  destruct (Regex.test (qualifiers v) q) eqn:E1;
    [destruct (Regex.test [scope_keyword v] q) eqn:E2|].
  - now apply test_spec.
  - exists EmptyString, (scope_keyword v), c, (login +:+ " " +:+ q).
    split; [now left|]. split; [reflexivity|]. now split.
  - exists EmptyString, (scope_keyword v), c,
      (login +:+ " " +:+ Str.dq +:+ escapeQuotes q +:+ Str.dq).
    split; [now left|]. split; [reflexivity|]. now split.
Qed.

End PlainQueries.

Lemma plain_query_is_quoted_witness :
  colon_free "fix crash" = true
  /\ liveQuery (U := Examples.plainUtil) VOrg "acme" "fix crash"
     = scope_keyword VOrg +:+ ":" +:+ "acme" +:+ " "
       +:+ Str.dq +:+ escapeQuotes (Util := Examples.plainUtil) "fix crash"
       +:+ Str.dq.
Proof.
  assert (H : colon_free "fix crash" = true) by reflexivity.
  split; [exact H|].
  exact (plain_query_is_quoted (U := Examples.plainUtil) VOrg "acme"
           "fix crash" H).
Defined.

Lemma liveQuery_is_always_scoped_witness :
  Str.is_word "a" = true
  /\ Pattern.HasToken [scope_keyword VUser]
       (liveQuery (U := Examples.plainUtil) VUser (String "a" "lice")
          "is:open crash").
Proof.
  assert (H : Str.is_word "a" = true) by reflexivity.
  split; [exact H|].
  exact (liveQuery_is_always_scoped (U := Examples.plainUtil) VUser "a" "lice"
           "is:open crash" H).
Defined.

(** ** What the fetch asks for *)

Lemma process_page_warns v login s r s' l :
  process_page v login s r = Stop s' l ->
  l = [] \/ l = [warn_not_found v login].
Proof.
  unfold process_page, process_connection.
  destruct (r_data r) as [b|]; [|intros [= _ <-]; now right].
  destruct (data b) as [d|]; [|intros [= _ <-]; now right].
  destruct (owner d) as [o|]; [|intros [= _ <-]; now right].
  destruct (repositories o) as [c|], v; try discriminate;
    try (intros [= _ <-]; now right);
    (destruct (edges_of _ c); [|discriminate];
     destruct (pageInfo_of _ c) as [p|]; [|discriminate];
     destruct (hasNextPage p); [discriminate|]; intros [= _ <-];
     now left).
Qed.

(** Every request of the walk of an account is a POST to [/graphql] for
    up to 100 repositories of that account; the walk makes no other
    request. *)
Lemma walk_log_events v login (q : list (Outcome GqlResponse)) :
  forall cursor s,
    Forall (fun e => asks_for v login e /\ is_get e = false)
           (walk v login cursor s q).1.2.
Proof.
  assert (Hreq : forall c, asks_for v login (page_request v login c)
                           /\ is_get (page_request v login c) = false)
    by (intros c; repeat split).
  assert (Hwarn : asks_for v login (warn_not_found v login)
                  /\ is_get (warn_not_found v login) = false)
    by (destruct v; repeat split).
  induction q as [|o q IH]; intros cursor s.
  - cbn. constructor; [apply Hreq | constructor].
  - cbn [walk]. destruct o as [r|reason];
      [|cbn; constructor; [apply Hreq | constructor]].
    destruct (process_page v login s r) as [s' l|s' c|e] eqn:E.
    + cbn. constructor; [apply Hreq|].
      destruct (process_page_warns _ _ _ _ _ _ E) as [-> | ->];
        repeat constructor; apply Hwarn.
    + specialize (IH c s').
      destruct (walk v login c s' q) as [[r' l'] rest]. cbn in IH |- *.
      constructor; [apply Hreq | exact IH].
    + cbn. constructor; [apply Hreq | constructor].
Qed.

Lemma noget_ret {A} (a : A) : NoGet (ret a).
Proof. intros w. split; [constructor | reflexivity]. Qed.

Lemma noget_bind {A B} (m : M A) (k : A -> M B) :
  NoGet m -> (forall a, NoGet (k a)) -> NoGet (bind m k).
Proof.
  intros Hm Hk w. specialize (Hm w). unfold bind.
  destruct (m w) as [[[a|e|] l] w1]; cbn [fst snd] in Hm |- *; try exact Hm.
  specialize (Hk a w1). destruct (k a w1) as [[r l'] w2].
  cbn [fst snd] in Hk |- *. destruct Hm as [Hm1 <-], Hk as [Hk1 ->].
  split; [|reflexivity]. apply Forall_app. now split.
Qed.

Lemma noget_walk_account v login : NoGet (walk_account v login).
Proof.
  intros w. unfold walk_account.
  pose proof (walk_log_events v login (graphqlQ w) None JsSet.empty) as H.
  destruct (walk v login None JsSet.empty (graphqlQ w)) as [[r l] q].
  cbn [fst snd] in H |- *. split; [|reflexivity].
  eapply List.Forall_impl; [|exact H]. now intros e [_ He].
Qed.

Lemma noget_fetch_accounts v (us : list string) :
  v <> VGist -> forall m, NoGet (fetch_accounts v us m).
Proof.
  intros Hv. induction us as [|user rest IH]; intros m; cbn [fetch_accounts].
  - apply noget_ret.
  - apply noget_bind; [apply noget_walk_account|]. intros rs.
    apply noget_bind; [|intros gs; apply IH].
    destruct v; [apply noget_ret | apply noget_ret | contradiction].
Qed.

Lemma logs_ret {A} P (a : A) : Logs P (ret a).
Proof. intros w. constructor. Qed.

Lemma logs_bind {A B} P (m : M A) (k : A -> M B) :
  Logs P m -> (forall a, Logs P (k a)) -> Logs P (bind m k).
Proof.
  intros Hm Hk w. specialize (Hm w). unfold bind.
  destruct (m w) as [[[a|e|] l] w1]; cbn [fst snd] in Hm |- *; try exact Hm.
  specialize (Hk a w1). destruct (k a w1) as [[r l'] w2].
  cbn [fst snd] in Hk |- *. apply Forall_app. now split.
Qed.

Lemma logs_impl {A} (P Q : Event -> Prop) (m : M A) :
  (forall e, P e -> Q e) -> Logs P m -> Logs Q m.
Proof.
  intros HPQ Hm w. eapply List.Forall_impl; [exact HPQ | apply Hm].
Qed.

Lemma logs_fetch_accounts v (all : list string) (us : list string) :
  (forall u, In u us -> In u all) ->
  forall m, Logs (asks_for_one_of v all) (fetch_accounts v us m).
Proof.
  induction us as [|user rest IH]; intros Hin m; cbn [fetch_accounts].
  - apply logs_ret.
  - apply logs_bind; [|intros rs; apply logs_bind].
    + intros w. unfold walk_account.
      pose proof (walk_log_events v user (graphqlQ w) None JsSet.empty) as H.
      destruct (walk v user None JsSet.empty (graphqlQ w)) as [[r l] q].
      cbn [fst snd] in H |- *. eapply List.Forall_impl; [|exact H].
      intros [path query| | |] [He _]; try exact I.
      destruct He as (H1 & H2 & H3 & H4). cbn.
      repeat split; try assumption. rewrite H2. apply Hin. now left.
    + destruct v; try apply logs_ret.
      intros w. unfold fetch_gists.
      destruct (gistsQ w) as [|[[gs|err]|reason] q]; repeat constructor.
    + intros gs. apply IH. intros u Hu. apply Hin. now right.
Qed.

(** X16: every POST of the fetch goes to [/graphql] and asks for up to
    100 repositories of one of the configured accounts, as a user in the
    users engines and as an organisation in the organisation engine. *)
Theorem fetch_asks_only_for_configured_accounts v (usernames : list string) w :
  Forall (asks_for_one_of v usernames) (getRepos_body v usernames w).1.2.
Proof.
  unfold getRepos_body. now apply logs_fetch_accounts.
Qed.

(** X17: the fetch never searches issues and uses no answer of the issue
    endpoint; in the engines without gists it makes no GET request at all
    and uses no answer of the gist endpoint. *)
Theorem fetch_leaves_the_other_endpoints v (usernames : list string) w :
  count_live_requests (getRepos_body v usernames w).1.2 = 0
  /\ issuesQ (getRepos_body v usernames w).2 = issuesQ w
  /\ (v <> VGist ->
      Forall (fun e => is_get e = false) (getRepos_body v usernames w).1.2
      /\ gistsQ (getRepos_body v usernames w).2 = gistsQ w).
Proof.
  unfold getRepos_body.
  destruct (quiet_fetch_accounts v usernames ∅ w) as [H1 H2].
  split; [exact H1 | split; [exact H2 |]].
  intros Hv. apply (noget_fetch_accounts v usernames Hv ∅ w).
Qed.

(** ** Accounts one after the other *)

Lemma bind_assoc {A B C} (m : M A) (k : A -> M B) (h : B -> M C) w :
  bind (bind m k) h w = bind m (fun a => bind (k a) h) w.
Proof.
  unfold bind. destruct (m w) as [[[a|e|] l] w1]; try reflexivity.
  destruct (k a w1) as [[[b|e|] l1] w2]; try reflexivity.
  destruct (h b w2) as [[r l2] w3]. now rewrite app_assoc.
Qed.

Lemma bind_ext {A B} (m : M A) (k k' : A -> M B) w :
  (forall a w1, k a w1 = k' a w1) -> bind m k w = bind m k' w.
Proof.
  intros Hk. unfold bind. destruct (m w) as [[[a|e|] l] w1]; try reflexivity.
  now rewrite Hk.
Qed.

Lemma bind_ret_l {A B} (a : A) (k : A -> M B) w : bind (ret a) k w = k a w.
Proof. unfold bind, ret. now destruct (k a w) as [[r l] w']. Qed.

Lemma fetch_accounts_app v (us1 us2 : list string) :
  forall m w,
    fetch_accounts v (us1 ++ us2) m w
    = (let* m1 := fetch_accounts v us1 m in fetch_accounts v us2 m1) w.
Proof.
  induction us1 as [|user us1 IH]; intros m w.
  - cbn [app fetch_accounts]. now rewrite bind_ret_l.
  - cbn [app fetch_accounts]. rewrite bind_assoc.
    apply bind_ext. intros rs w1. rewrite bind_assoc.
    apply bind_ext. intros gs w2. apply IH.
Qed.

(** X18: accounts are walked one after the other in the order of the
    list.  The fetch over [us1 ++ us2] is the fetch over [us1] followed
    by the fetch over [us2] into the map built so far; and the record of
    the account walked last comes from that last walk, also when the
    account was listed before. *)
Theorem fetch_walks_accounts_in_order v (us1 us2 : list string) u m w :
  fetch_accounts v (us1 ++ us2) m w
  = (let* m1 := fetch_accounts v us1 m in fetch_accounts v us2 m1) w
  /\ match fetch_accounts v (us1 ++ [u]) m w with
     | (Ok m', _, _) =>
         exists m1 l1 w1 rs l2 w2,
           fetch_accounts v us1 m w = (Ok m1, l1, w1)
           /\ walk_account v u w1 = (Ok rs, l2, w2)
           /\ repos <$> m' !! u = Some rs
     | _ => True
     end.
Proof.
  split; [apply fetch_accounts_app|].
  destruct (fetch_accounts v (us1 ++ [u]) m w) as [[[m'|e|] l] w'] eqn:E;
    try exact I.
  rewrite fetch_accounts_app in E.
  apply bind_ok in E as (m1 & l1 & w1 & l2 & E1 & E2 & _).
  cbn [fetch_accounts] in E2.
  apply bind_ok in E2 as (rs & l3 & w2 & l4 & Hw & E2 & _).
  apply bind_ok in E2 as (gs & l5 & w3 & l6 & _ & E2 & _).
  injection E2 as <- _ _.
  exists m1, l1, w1, rs, l3, w2. split; [exact E1|]. split; [exact Hw|].
  now rewrite lookup_insert_eq.
Qed.

Lemma failed_live_search_is_isolated_witness :
  let g := getRepos_body VUser ["alice"] in
  let data : gmap string AccountData :=
    <["alice" := {| repos := [mkObj 1 Examples.tool]; gists := [] |}]> ∅ in
  let w1 := {| graphqlQ := []; gistsQ := [];
               issuesQ := [Rejected "Error: timeout"] |} in
  let rs := repoResults (U := Examples.plainUtil) VUser "alice" "tool"
              [mkObj 1 Examples.tool] in
  g Examples.live_down = (Ok data, [page_request VUser "alice" None], w1)
  /\ collection (U := Examples.plainUtil) VUser data "alice" "tool" = Push rs
  /\ issuesQ w1 = Rejected "Error: timeout" :: []
  /\ (forall items : list Hit,
        Rejected "Error: timeout" <> Resolved (Wellformed items))
  /\ search_loop (U := Examples.plainUtil) VUser g "tool" ("alice" :: [])
       [] Examples.live_down
     = let '(r, l, w') :=
         search_loop (U := Examples.plainUtil) VUser g "tool" [] ([] ++ rs)
           {| graphqlQ := graphqlQ w1; gistsQ := gistsQ w1; issuesQ := [] |} in
       (r,
        [page_request VUser "alice" None]
        ++ (Get "/search/issues"
              [("per_page", "100");
               ("q", liveQuery (U := Examples.plainUtil) VUser "alice" "tool")]
            :: on_live_error VUser
                 (failure_text (A := list Hit) (Rejected "Error: timeout")))
        ++ l,
        w').
Proof.
  intros g data w1 rs.
  assert (H1 : g Examples.live_down
               = (Ok data, [page_request VUser "alice" None], w1))
    by reflexivity.
  assert (H2 : collection (U := Examples.plainUtil) VUser data "alice" "tool"
               = Push rs).
  { unfold collection, data. now rewrite lookup_insert_eq. }
  assert (H3 : issuesQ w1 = Rejected "Error: timeout" :: []) by reflexivity.
  assert (H4 : forall items : list Hit,
             Rejected "Error: timeout" <> Resolved (Wellformed items))
    by (intros items; discriminate).
  split; [exact H1 | split; [exact H2 | split; [exact H3 | split; [exact H4 |]]]].
  exact (failed_live_search_is_isolated (U := Examples.plainUtil) VUser g
           "tool" "alice" [] [] Examples.live_down data
           [page_request VUser "alice" None] w1 rs
           (Rejected "Error: timeout") [] H1 H2 H3 H4).
Defined.

(** X20: in the gist engine a failed gist fetch costs the gists of that
    account and nothing else: the repositories the walk gathered are
    recorded with an empty set of gists, a warning is printed, and the
    fetch goes on with the next account. *)
Theorem failed_gist_fetch_is_isolated login rest m w s log q failure gq :
  walk VGist login None JsSet.empty (graphqlQ w) = (Ok s, log, q) ->
  gistsQ w = failure :: gq ->
  (forall gs, failure <> Resolved (Wellformed gs)) ->
  fetch_accounts VGist (login :: rest) m w
  = let '(r, l, w') :=
      fetch_accounts VGist rest
        (<[login := {| repos := s; gists := JsSet.empty |}]> m)
        {| graphqlQ := q; gistsQ := gq; issuesQ := issuesQ w |} in
    (r,
     log
     ++ [Get ("/users/" +:+ login +:+ "/gists") [];
         Warn ("Error fetching gists for user " +:+ Str.dq +:+ login
               +:+ Str.dq +:+ ": " +:+ failure_text failure)]
     ++ l,
     w').
Proof.
  intros Hw Hq Hf.
  rewrite (fetch_accounts_walk VGist login rest m w s log q Hw).
  cbn zeta. unfold fetch_gists. cbn [gistsQ graphqlQ issuesQ]. rewrite Hq.
  destruct failure as [[gs|err]|reason]; [now destruct (Hf gs)| |];
    cbn [failure_text];
    now destruct (fetch_accounts VGist rest _ _) as [[r l] w'].
Qed.

Lemma failed_gist_fetch_is_isolated_witness :
  let w := {| graphqlQ := [answer (Examples.page_of [mkObj 1 Examples.tool]
                                     None false)];
              gistsQ := [Rejected "Error: 403"]; issuesQ := [] |} in
  walk VGist "alice" None JsSet.empty (graphqlQ w)
  = (Ok [mkObj 1 Examples.tool], [page_request VGist "alice" None], [])
  /\ gistsQ w = Rejected "Error: 403" :: []
  /\ (forall gs : list (Obj Gist),
        Rejected "Error: 403" <> Resolved (Wellformed gs))
  /\ fetch_accounts VGist ("alice" :: []) ∅ w
     = let '(r, l, w') :=
         fetch_accounts VGist []
           (<["alice" := {| repos := [mkObj 1 Examples.tool];
                            gists := JsSet.empty |}]> ∅)
           {| graphqlQ := []; gistsQ := []; issuesQ := issuesQ w |} in
       (r,
        [page_request VGist "alice" None]
        ++ [Get ("/users/" +:+ "alice" +:+ "/gists") [];
            Warn ("Error fetching gists for user " +:+ Str.dq +:+ "alice"
                  +:+ Str.dq +:+ ": "
                  +:+ failure_text (A := list (Obj Gist))
                        (Rejected "Error: 403"))]
        ++ l,
        w').
Proof.
  intros w.
  assert (H1 : walk VGist "alice" None JsSet.empty (graphqlQ w)
               = (Ok [mkObj 1 Examples.tool],
                  [page_request VGist "alice" None], []))
    by reflexivity.
  assert (H2 : gistsQ w = Rejected "Error: 403" :: []) by reflexivity.
  assert (H3 : forall gs : list (Obj Gist),
             Rejected "Error: 403" <> Resolved (Wellformed gs))
    by (intros gs; discriminate).
  split; [exact H1 | split; [exact H2 | split; [exact H3 |]]].
  exact (failed_gist_fetch_is_isolated "alice" [] ∅ w
           [mkObj 1 Examples.tool] [page_request VGist "alice" None] []
           (Rejected "Error: 403") [] H1 H2 H3).
Defined.

(** * The claims on whole account lists and on the requests sent *)

(** ** The cursor of a request *)

Lemma lookup_map {A B} (f : A -> B) (l : list A) :
  forall k, map f l !! k = f <$> l !! k.
Proof.
  induction l as [|x l IH]; intros [|k]; cbn; try reflexivity. apply IH.
Qed.

Lemma page_request_carried v login (c : option string) :
  page_request v login c = request_with v login (carried c).
Proof. destruct c as [[|a s]|], v; reflexivity. Qed.

(** C6 (as amended): over page answers that each announce a next page, up
    to one that does not, the walk of an account issues one request per
    answer, each after the answer before it has been processed, and then
    ends, leaving the answers that follow untouched.  Every request asks
    [/graphql] for up to 100 repositories of the account.  The first
    request carries no cursor; request k+1 carries the [endCursor] of
    answer k when that is a non-empty string, and no cursor when it is
    null or the empty string. *)
Theorem walk_follows_cursors v login (ps : list Page) (last : Page) rest :
  Forall (fun p => p_hasNextPage p = true) ps ->
  p_hasNextPage last = false ->
  exists s log,
    walk v login None JsSet.empty (map answer (ps ++ [last]) ++ rest)
    = (Ok s, log, rest)
    /\ log = request_with v login None
             :: map (fun p => request_with v login (carried (p_endCursor p))) ps
    /\ length log = length (ps ++ [last])
    /\ (forall k p c,
          ps !! k = Some p -> p_endCursor p = Some c -> c <> EmptyString ->
          log !! S k = Some (request_with v login (Some c))).
Proof.
  intros Hps Hlast. eexists. eexists.
  assert (Hlog : map (page_request v login) (None :: map p_endCursor ps)
                 = request_with v login None
                   :: map (fun p => request_with v login
                                      (carried (p_endCursor p))) ps).
  { cbn [map]. rewrite map_map. f_equal.
    apply map_ext. intros p. apply page_request_carried. }
  split; [|split; [|split]].
  - rewrite (walk_chain v login ps None JsSet.empty last rest Hps Hlast).
    rewrite Hlog. reflexivity.
  - reflexivity.
  - cbn [length]. rewrite length_map, length_app. cbn. lia.
  - intros k p c Hk Hc Hne.
    change (map (fun p => request_with v login (carried (p_endCursor p))) ps
              !! k = Some (request_with v login (Some c))).
    rewrite lookup_map, Hk. cbn.
    rewrite Hc. destruct c; [contradiction | reflexivity].
Qed.

Lemma walk_follows_cursors_witness :
  let ps := [Examples.page_of [mkObj 1 Examples.tool] (Some "c1") true] in
  let last := Examples.page_of [mkObj 2 Examples.tool] None false in
  Forall (fun p => p_hasNextPage p = true) ps
  /\ p_hasNextPage last = false
  /\ exists s log,
       walk VUser "alice" None JsSet.empty (map answer (ps ++ [last]) ++ [])
       = (Ok s, log, [])
       /\ log = request_with VUser "alice" None
                :: map (fun p => request_with VUser "alice"
                                   (carried (p_endCursor p))) ps
       /\ length log = length (ps ++ [last])
       /\ (forall k p c,
             ps !! k = Some p -> p_endCursor p = Some c -> c <> EmptyString ->
             log !! S k = Some (request_with VUser "alice" (Some c))).
Proof.
  intros ps last.
  assert (H1 : Forall (fun p => p_hasNextPage p = true) ps)
    by (repeat constructor).
  assert (H2 : p_hasNextPage last = false) by reflexivity.
  split; [exact H1 | split; [exact H2 |]].
  exact (walk_follows_cursors VUser "alice" ps last [] H1 H2).
Defined.

(** C6 (as stated) fails: the first answer announces a next page and
    returns the empty string as [endCursor]; the second request carries
    no cursor, not that [endCursor]. *)
Lemma walk_sends_no_cursor_for_an_empty_endCursor :
  exists s,
    walk VUser "alice" None JsSet.empty (map answer empty_cursor_pages)
    = (Ok s,
       [request_with VUser "alice" None; request_with VUser "alice" None], [])
    /\ (p_endCursor <$> empty_cursor_pages !! 0) = Some (Some EmptyString)
    /\ request_with VUser "alice" None
       <> request_with VUser "alice" (Some EmptyString).
Proof.
  eexists. split; [reflexivity|]. split; [reflexivity | discriminate].
Qed.

(** ** The record of an account in a list of accounts *)

(** The record of an account that is not walked again later holds the set
    its walk gathered, whatever accounts come before and after it. *)
Lemma fetch_records_last_walk
    v (us1 : list string) login (us2 : list string) m w m1 l1 w1 s log q
    m' l w' :
  fetch_accounts v us1 m w = (Ok m1, l1, w1) ->
  walk v login None JsSet.empty (graphqlQ w1) = (Ok s, log, q) ->
  ~ In login us2 ->
  fetch_accounts v (us1 ++ login :: us2) m w = (Ok m', l, w') ->
  repos <$> m' !! login = Some s.
Proof.
  intros H1 Hw Hnot Hall. rewrite fetch_accounts_app in Hall.
  apply bind_ok in Hall as (m1' & l1' & w1' & l2 & E1 & E2 & _).
  rewrite H1 in E1. injection E1 as <- <- <-.
  cbn [fetch_accounts] in E2.
  apply bind_ok in E2 as (rs & l3 & w2 & l4 & Hwa & E2 & _).
  apply bind_ok in E2 as (gs & l5 & w3 & l6 & _ & E2 & _).
  unfold walk_account in Hwa. rewrite Hw in Hwa. injection Hwa as <- _ _.
  destruct (fetch_accounts_entries v us2 _ _ _ _ _ E2) as [_ Hout].
  now rewrite (Hout login Hnot), lookup_insert_eq.
Qed.

(** C1 (as amended): for every list of accounts and every account of it,
    the set recorded for the account holds every object the pages of its
    walk returned, in the order returned, each object once by identity,
    and nothing from the walks of the other accounts.  Items are not
    compared by their fields: when the returned nodes are distinct
    objects, as the nodes of parsed answers are, the set is the list of
    all returned items, items with equal fields included.  (An account
    listed again later is recorded by its later walk.) *)
Theorem recorded_set_is_by_identity
    v (us1 : list string) login (us2 : list string) w m1 l1 w1
    (ps : list Page) last rest m' :
  fetch_accounts v us1 ∅ w = (Ok m1, l1, w1) ->
  graphqlQ w1 = map answer (ps ++ [last]) ++ rest ->
  Forall (fun p => p_hasNextPage p = true) ps ->
  p_hasNextPage last = false ->
  ~ In login us2 ->
  res_of (getRepos_body v (us1 ++ login :: us2) w) = Ok m' ->
  let items := concat (map p_items (ps ++ [last])) in
  repos <$> m' !! login = Some (distinct_objects [] items)
  /\ (List.NoDup (map oid items) -> repos <$> m' !! login = Some items).
Proof.
  intros H1 Hq Hps Hlast Hnot Hall items.
  assert (E : repos <$> m' !! login = Some (distinct_objects [] items)).
  { unfold getRepos_body, res_of in Hall.
    destruct (fetch_accounts v (us1 ++ login :: us2) ∅ w)
      as [[r l] w'] eqn:Ef. cbn in Hall. subst r.
    eapply (fetch_records_last_walk v us1 login us2); try eassumption.
    rewrite Hq, (walk_chain v login ps None JsSet.empty last rest Hps Hlast).
    now rewrite add_all_distinct. }
  split; [exact E|]. intros Hnd. rewrite E. f_equal.
  now apply distinct_objects_fresh.
Qed.

Lemma recorded_set_is_by_identity_witness :
  let ps := [Examples.page_of [mkObj 1 Examples.tool] (Some "c1") true] in
  let last := Examples.page_of [mkObj 2 Examples.tool] None false in
  let rest := [answer (Examples.page_of [] None false)] in
  let m1 : gmap string AccountData :=
    <["bob" := {| repos := [mkObj 3 Examples.tool]; gists := [] |}]> ∅ in
  let w1 := {| graphqlQ := map answer (ps ++ [last]) ++ rest;
               gistsQ := []; issuesQ := [] |} in
  let m' : gmap string AccountData :=
    <["carol" := {| repos := []; gists := [] |}]>
      (<["alice" := {| repos := [mkObj 1 Examples.tool; mkObj 2 Examples.tool];
                       gists := [] |}]> m1) in
  fetch_accounts VUser ["bob"] ∅ three_accounts
  = (Ok m1, [page_request VUser "bob" None], w1)
  /\ graphqlQ w1 = map answer (ps ++ [last]) ++ rest
  /\ Forall (fun p => p_hasNextPage p = true) ps
  /\ p_hasNextPage last = false
  /\ ~ In "alice" ["carol"]
  /\ res_of (getRepos_body VUser (["bob"] ++ "alice" :: ["carol"])
               three_accounts) = Ok m'
  /\ repos <$> m' !! "alice"
     = Some (distinct_objects [] (concat (map p_items (ps ++ [last]))))
  /\ (List.NoDup (map oid (concat (map p_items (ps ++ [last])))) ->
      repos <$> m' !! "alice" = Some (concat (map p_items (ps ++ [last])))).
Proof.
  intros ps last rest m1 w1 m'.
  assert (H1 : fetch_accounts VUser ["bob"] ∅ three_accounts
               = (Ok m1, [page_request VUser "bob" None], w1))
    by reflexivity.
  assert (H2 : graphqlQ w1 = map answer (ps ++ [last]) ++ rest)
    by reflexivity.
  assert (H3 : Forall (fun p => p_hasNextPage p = true) ps)
    by (repeat constructor).
  assert (H4 : p_hasNextPage last = false) by reflexivity.
  assert (H5 : ~ In "alice" ["carol"])
    by (intros [H|[]]; discriminate H).
  assert (H6 : res_of (getRepos_body VUser (["bob"] ++ "alice" :: ["carol"])
                         three_accounts) = Ok m') by reflexivity.
  repeat (split; [assumption|]).
  exact (recorded_set_is_by_identity VUser ["bob"] "alice" ["carol"]
           three_accounts m1 [page_request VUser "bob" None] w1 ps last rest
           m' H1 H2 H3 H4 H5 H6).
Defined.

(** X5: a fulfilled fetch has recorded an entry for every configured
    account and for no other key; an account whose pages hold no
    repository has an entry with the empty set, not no entry. *)
Theorem fetch_records_every_account v (usernames : list string) w :
  match getRepos_body v usernames w with
  | (Ok m, _, _) =>
      (forall u, In u usernames <-> is_Some (m !! u))
      /\ (forall us1 login us2 m1 l1 w1 (ps : list Page) last rest,
            usernames = us1 ++ login :: us2 ->
            ~ In login us2 ->
            fetch_accounts v us1 ∅ w = (Ok m1, l1, w1) ->
            graphqlQ w1 = map answer (ps ++ [last]) ++ rest ->
            Forall (fun p => p_hasNextPage p = true) ps ->
            p_hasNextPage last = false ->
            Forall (fun p => p_items p = []) (ps ++ [last]) ->
            repos <$> m !! login = Some JsSet.empty)
  | _ => True
  end.
Proof.
  unfold getRepos_body.
  destruct (fetch_accounts v usernames ∅ w) as [[[m|e|] l] w'] eqn:E;
    try exact I.
  destruct (fetch_accounts_entries v usernames _ _ _ _ _ E) as [Hin Hout].
  split.
  - intros u. split.
    + intros Hu. destruct (Hin u Hu) as (d & -> & _). now eexists.
    + intros [d Hd].
      destruct (in_dec Stdlib.Strings.String.string_dec u usernames)
        as [Hu|Hu]; [exact Hu|].
      rewrite (Hout u Hu), lookup_empty in Hd. discriminate.
  - intros us1 login us2 m1 l1 w1 ps last rest -> Hnot H1 Hq Hps Hlast Hempty.
    eapply (fetch_records_last_walk v us1 login us2); try eassumption.
    rewrite Hq, (walk_chain v login ps None JsSet.empty last rest Hps Hlast).
    do 2 f_equal.
    assert (Hnil : concat (map p_items (ps ++ [last])) = []).
    { clear -Hempty. induction Hempty as [|p l Hp _ IH]; [reflexivity|].
      cbn. now rewrite Hp, IH. }
    now rewrite Hnil.
Qed.

(** ** Errors that leave [search] *)

Section SearchClaims.
Context {U : Util}.

(** The loop of [search] raises exactly when the fetch raises at the
    [await] of some account, after the accounts before it were served;
    it then raises the error of the fetch. *)
Lemma search_loop_throws_iff v g q (us : list string) :
  forall results w e,
    res_of (search_loop v g q us results w) = Throw e
    <-> exists us1 user us2 rs l1 w1,
          us = us1 ++ user :: us2
          /\ search_loop v g q us1 results w = (Ok rs, l1, w1)
          /\ res_of (g w1) = Throw e.
Proof.
  induction us as [|user rest IH]; intros results w e.
  - split; [discriminate|].
    intros (us1 & u & us2 & _ & _ & _ & E & _). now destruct us1.
  - split.
    + rewrite search_loop_cons.
      destruct (g w) as [[[data|e'|] l0] w1] eqn:Eg.
      * destruct (collection v data user q) as [ev|rs] eqn:Ec.
        -- destruct (search_loop v g q rest results w1) as [[r l] w2] eqn:Es.
           unfold res_of. cbn. intros ->.
           assert (Hr : res_of (search_loop v g q rest results w1) = Throw e)
             by (now rewrite Es).
           apply IH in Hr as (us1 & u & us2 & rs & l1 & w3 & -> & E1 & E2).
           exists (user :: us1), u, us2, rs, (l0 ++ ev :: l1), w3.
           split; [reflexivity|]. split; [|exact E2].
           now rewrite search_loop_cons, Eg, Ec, E1.
        -- pose proof (live_search_caught v user q w1) as [Hl _].
           unfold res_of in Hl.
           destruct (live_search v user q w1) as [[[hits|e'|] l1] w2] eqn:El;
             [|destruct Hl|discriminate].
           destruct (search_loop v g q rest (results ++ rs ++ hits) w2)
             as [[r l] w3] eqn:Es.
           unfold res_of. cbn. intros ->.
           assert (Hr : res_of (search_loop v g q rest
                                  (results ++ rs ++ hits) w2) = Throw e)
             by (now rewrite Es).
           apply IH in Hr as (us1 & u & us2 & rs' & l2 & w4 & -> & E1 & E2).
           exists (user :: us1), u, us2, rs', (l0 ++ l1 ++ l2), w4.
           split; [reflexivity|]. split; [|exact E2].
           now rewrite search_loop_cons, Eg, Ec, El, E1.
      * intros [= <-]. exists [], user, rest, results, [], w.
        split; [reflexivity|]. split; [reflexivity|].
        unfold res_of. now rewrite Eg.
      * discriminate.
    + intros (us1 & u & us2 & rs & l1 & w1 & E & E1 & E2).
      rewrite E, search_loop_app. unfold bind. rewrite E1.
      rewrite search_loop_cons. unfold res_of in E2 |- *.
      destruct (g w1) as [[[data|e'|] l0] w2]; try discriminate.
      cbn in E2 |- *. congruence.
Qed.

(** C2 (as amended): after [init], [search] raises exactly when the fetch
    of the collection it awaits is rejected: no handler surrounds that
    [await], so the rejection of the fetch at some account, after the
    accounts before it were served, leaves [search] as it is, and no
    other error leaves it.  While every page request is answered with a
    shape the walk handles, [search] does not raise, whether or not the
    gist and issue requests succeed: a failed live search is caught and
    gives no results for that account, a failed gist fetch is caught and
    gives no gists.  Before [init], [search] raises the error of the
    engine that is not initialised. *)
Theorem search_raises_only_with_the_fetch v usernames origin token q w :
  Forall (fun o => handled v o = true) (graphqlQ w) ->
  match res_of (search v (init v usernames origin token) q w) with
  | Throw _ => False
  | _ => True
  end
  /\ (forall login w1 failure iq,
        issuesQ w1 = failure :: iq ->
        (forall items, failure <> Resolved (Wellformed items)) ->
        res_of (live_search v login q w1) = Ok [])
  /\ (forall login w1 failure gq,
        gistsQ w1 = failure :: gq ->
        (forall gs, failure <> Resolved (Wellformed gs)) ->
        res_of (fetch_gists login w1) = Ok JsSet.empty)
  /\ search v uninitialized q w = (Throw NotInitialized, [], w)
  /\ (forall w0 e,
        res_of (search v (init v usernames origin token) q w0) = Throw e
        <-> exists us1 user us2 rs l1 w1,
              usernames = us1 ++ user :: us2
              /\ search_loop v (getRepos_body v usernames) q us1 [] w0
                 = (Ok rs, l1, w1)
              /\ res_of (getRepos_body v usernames w1) = Throw e).
Proof.
  intros Hw. split; [|split; [|split; [|split; [reflexivity|]]]].
  - unfold search, init. cbn [client getRepos users].
    apply (safe_search_loop v _ q usernames); [|exact Hw].
    unfold rateLimit, getRepos_body. apply safe_fetch_accounts.
  - intros login w1 failure iq E Hf. unfold live_search, res_of. rewrite E.
    destruct failure as [[items|err]|reason]; [|reflexivity..].
    now destruct (Hf items).
  - intros login w1 failure gq E Hf. unfold fetch_gists, res_of. rewrite E.
    destruct failure as [[gs|err]|reason]; [|reflexivity..].
    now destruct (Hf gs).
  - intros w0 e. unfold search, init. cbn [client getRepos users].
    apply search_loop_throws_iff.
Qed.

(** ** The repository results that [search] pushes *)

Lemma field_matches_spec v q (field : option string) :
  field_matches v q field = true <-> FuzzyMatches v q field.
Proof.
  assert (Husers : Str.truthy_opt field && fuzzyIncludes field q = true
                   <-> exists t, field = Some t /\ t <> EmptyString
                                 /\ fuzzyIncludes (Some t) q = true).
  { unfold Str.truthy_opt, Str.truthy. destruct field as [t|]; cbn.
    - destruct (String.eqb_spec t EmptyString) as [->|Ht]; cbn.
      + split; [discriminate|]. intros (t & [= <-] & Ht & _). congruence.
      + split; [intros Hf; now exists t|].
        now intros (t' & [= <-] & _ & Hf).
    - split; [discriminate|]. now intros (t & Ht & _). }
  destruct v; cbn [field_matches FuzzyMatches]; [exact Husers | | exact Husers].
  reflexivity.
Qed.

Lemma keep_survives v q r : keep v q r = true <-> Survives v q r.
Proof.
  rewrite keep_spec. unfold Survives. now rewrite !field_matches_spec.
Qed.

Lemma filter_partition {A} (f : A -> bool) (l : list A) :
  Permutation (List.filter f l ++ List.filter (fun x => negb (f x)) l) l.
Proof.
  induction l as [|x l IH]; cbn; [reflexivity|].
  destruct (f x); cbn.
  - now constructor.
  - rewrite <- Permutation_middle. now constructor.
Qed.

(** C8: for an account that [search] goes on with, the repository results
    it pushes come from exactly the members of the cached set that are
    neither archived nor forks and whose description or name fuzzy-matches
    the query -- the cached set splits into those, each once, and the
    members that fail this test, archived and forked ones among them --
    in ascending order of name; each becomes the result titled
    "Repo account/name" whose URL is built from account and name.  They
    are appended to the results so far, before the gist results of the
    gist engine and the hits of the live search of that account. *)
Theorem search_pushes_the_matching_repositories
    v g q login rest results w data l0 w1 :
  g w = (Ok data, l0, w1) ->
  nothing_cached v data login = false ->
  exists kept dropped,
    Permutation (kept ++ dropped)
                (default JsSet.empty (repos <$> data !! login))
    /\ Forall (Survives v q) kept
    /\ Forall (fun r => ~ Survives v q r) dropped
    /\ StronglySorted name_le kept
    /\ (forall r,
          title (repoResult login r)
          = "Repo " +:+ login +:+ "/" +:+ name (oval r)
          /\ url (repoResult login r)
             = "https://github.com/" +:+ login +:+ "/" +:+ name (oval r))
    /\ search_loop v g q (login :: rest) results w
       = match live_search v login q w1 with
         | (Ok hits, l1, w2) =>
             let '(r, l, w') :=
               search_loop v g q rest
                 (results
                  ++ (map (repoResult login) kept
                      ++ match v with
                         | VGist =>
                             gistResults login q
                               (default JsSet.empty (gists <$> data !! login))
                         | _ => []
                         end)
                  ++ hits) w2 in
             (r, l0 ++ l1 ++ l, w')
         | (Throw e, l1, w2) => (Throw e, l0 ++ l1, w2)
         | (Pending, l1, w2) => (Pending, l0 ++ l1, w2)
         end.
Proof.
  intros Hg Hn.
  set (s := default JsSet.empty (repos <$> data !! login)).
  exists (survivors v q s), (List.filter (fun r => negb (keep v q r)) s).
  split; [|split; [|split; [|split; [|split]]]].
  - unfold survivors, JsSet.to_array.
    rewrite (js_sort_perm by_name (List.filter (keep v q) s)).
    apply filter_partition.
  - apply List.Forall_forall. intros r Hr. apply keep_survives.
    assert (Hp : Permutation (survivors v q s) (List.filter (keep v q) s))
      by apply js_sort_perm.
    apply (Permutation_in _ Hp) in Hr. now apply filter_In in Hr.
  - apply List.Forall_forall. intros r Hr Hs.
    apply filter_In in Hr as [_ Hr]. apply keep_survives in Hs.
    rewrite Hs in Hr. discriminate.
  - apply survivors_sorted.
  - intros r. split; reflexivity.
  - rewrite search_loop_cons, Hg, (collection_pushes v data login q Hn).
    reflexivity.
Qed.

End SearchClaims.

Lemma search_raises_only_with_the_fetch_witness :
  Forall (fun o => handled VUser o = true) (graphqlQ Examples.live_down)
  /\ match res_of (search (U := Examples.plainUtil) VUser
                     (init VUser ["alice"] None "t") "tool"
                     Examples.live_down)
     with Throw _ => False | _ => True end
  /\ search (U := Examples.plainUtil) VUser uninitialized "tool"
       Examples.live_down
     = (Throw NotInitialized, [], Examples.live_down).
Proof.
  assert (H : Forall (fun o => handled VUser o = true)
                (graphqlQ Examples.live_down))
    by (repeat constructor).
  destruct (search_raises_only_with_the_fetch (U := Examples.plainUtil)
              VUser ["alice"] None "t" "tool" Examples.live_down H)
    as (H1 & _ & _ & H4 & _).
  split; [exact H | split; [exact H1 | exact H4]].
Defined.

Lemma search_pushes_the_matching_repositories_witness :
  let g := getRepos_body VUser ["alice"] in
  let data : gmap string AccountData :=
    <["alice" := {| repos := [mkObj 1 Examples.tool]; gists := [] |}]> ∅ in
  let w1 := {| graphqlQ := []; gistsQ := [];
               issuesQ := [Rejected "Error: timeout"] |} in
  g Examples.live_down = (Ok data, [page_request VUser "alice" None], w1)
  /\ nothing_cached VUser data "alice" = false
  /\ exists kept dropped,
       Permutation (kept ++ dropped)
                   (default JsSet.empty (repos <$> data !! "alice"))
       /\ Forall (Survives (U := Examples.plainUtil) VUser "tool") kept
       /\ Forall (fun r => ~ Survives (U := Examples.plainUtil) VUser "tool" r)
                 dropped
       /\ StronglySorted name_le kept.
Proof.
  intros g data w1.
  assert (H1 : g Examples.live_down
               = (Ok data, [page_request VUser "alice" None], w1))
    by reflexivity.
  assert (H2 : nothing_cached VUser data "alice" = false).
  { unfold nothing_cached, data. now rewrite lookup_insert_eq. }
  split; [exact H1 | split; [exact H2 |]].
  destruct (search_pushes_the_matching_repositories (U := Examples.plainUtil)
              VUser g "tool" "alice" [] [] Examples.live_down data
              [page_request VUser "alice" None] w1 H1 H2)
    as (kept & dropped & Hp & Hk & Hd & Hs & _).
  exists kept, dropped. repeat split; assumption.
Defined.
